(** * VideoTrimmerApp: trim range, timeline slider and bounded playback

    A shallow embedding of the JavaScript sources of the application:

    - [Utils]      the pure helpers of the video utility module
                   ([validateTimeRange], [getSuggestedTrimPoints], ...);
    - [Trimmer]    the state and the handlers of [VideoTrimmerScreen];
    - [Trimmer64]  the trim range of that screen in binary64: the two
                   setters, the stage validation and the slider's moves;
    - [Player]     the state, the handlers and the asynchronous
                   initialisation task of [VideoPlayerScreen];
    - [Slider]     the position arithmetic and the pan responders of
                   [CustomTimelineSlider];
    - [B64]        the rational value of a binary64 number;
    - [Samples]    concrete clips, ranges and notification sequences;
    - [VideoUtils], [Selection], [PlayerView], [TrimmerView]
                   the rest of the utility module, the selection screen
                   and what the two screens render.

    React state is a record; a handler maps the state of the render it was
    created in to the state of the next render together with the commands
    it sent to the [expo-av] player through [videoRef].  Times in the two
    screens are JavaScript numbers holding milliseconds; they are modelled
    as exact rationals, on which [+], [-], [Math.min], [Math.max] and the
    comparisons agree with binary64 whenever the results are representable
    (in particular on all integer millisecond values below 2^53).  The
    two setters of the trim range add and take away 1000 ms, which
    binary64 rounds on the times the slider computes, and they are
    handed [NaN] on a duration of 0: what depends on either is stated on
    [Trimmer64].  The slider divides, so its arithmetic is written once
    over an interface of number operations and read both in binary64
    (for the degenerate duration and for the rounded round trip) and in
    exact rationals (for the round trip without rounding).  Binary64 is
    the kernel's primitive float type, specified by [Prim2SF] and
    [SpecFloat]. *)

From Stdlib Require Import QArith Qminmax Qabs Qpower Lqa Lia ZArith.
From Stdlib Require Import List String Bool.
From Stdlib Require Import Floats.
From Stdlib Require DecimalString DecimalZ DecimalPos Qround.
Import ListNotations.

(** ** JavaScript preliminaries *)

Module JS.

Local Open Scope Q_scope.

(** [a < b] on numbers. *)
Definition ltb (a b : Q) : bool := negb (Qle_bool b a).

(** [a <= b] on numbers. *)
Definition leb (a b : Q) : bool := Qle_bool a b.

(** Truthiness of a number: everything but zero ([NaN] is not a rational). *)
Definition truthy (a : Q) : bool := negb (Qeq_bool a 0).

(** [a || 0] on a number. *)
Definition or_zero (a : Q) : Q := if truthy a then a else 0.

(** Truthiness of a possibly missing string: [undefined] and the empty
    string are falsy. *)
Definition truthy_str (s : option string) : bool :=
  match s with
  | Some EmptyString => false
  | Some _ => true
  | None => false
  end.

End JS.

(** The commands a screen sends to the player behind [videoRef]. *)
Inductive command : Type :=
| pauseAsync
| playAsync
| setPositionAsync (positionMillis : Q)
| setRateAsync (rate : Q) (shouldCorrectPitch : bool).

(** [videoRef.current?.m(...)]: the call happens only when the ref is set. *)
Definition via_ref (videoRef : bool) (c : command) : list command :=
  if videoRef then [c] else [].

(** The playback status object the player passes to
    [onPlaybackStatusUpdate]. *)
Record status : Type := Status {
  isLoaded : bool;
  positionMillis : Q;
  st_isPlaying : bool
}.

(** ** The video utility module *)

Module Utils.

Local Open Scope Q_scope.

Definition validateTimeRange (startTime endTime : Q) : bool :=
  JS.ltb startTime endTime && JS.leb 0 startTime && JS.ltb 0 endTime.

Definition calculateTrimmedDuration (startTime endTime : Q) : Q :=
  Qmax 0 (endTime - startTime).

Record TrimPoints : Type := {
  tp_startTime : Q;
  tp_endTime : Q;
  tp_duration : Q
}.

Definition getSuggestedTrimPoints (videoDuration : Q) : TrimPoints :=
  let maxTrimDuration := 30000 in
  let suggestedDuration := Qmin videoDuration maxTrimDuration in
  {| tp_startTime := 0;
     tp_endTime := suggestedDuration;
     tp_duration := suggestedDuration |}.

Definition clamp (value min max : Q) : Q := Qmin (Qmax value min) max.

End Utils.

(** ** The trim screen ([VideoTrimmerScreen]) *)

Module Trimmer.

Local Open Scope Q_scope.

(** [route.params]. *)
Record Props : Type := {
  videoUri : option string;
  videoDuration : Q
}.

(** The [useState] cells and the [videoRef] of the component. *)
Record State : Type := {
  startTime : Q;
  endTime : Q;
  currentTime : Q;
  isPlaying : bool;
  isLoading : bool;
  videoStatus : option status;
  videoRef : bool
}.

Definition setStartTime (v : Q) (s : State) : State :=
  {| startTime := v; endTime := endTime s; currentTime := currentTime s;
     isPlaying := isPlaying s; isLoading := isLoading s;
     videoStatus := videoStatus s; videoRef := videoRef s |}.

Definition setEndTime (v : Q) (s : State) : State :=
  {| startTime := startTime s; endTime := v; currentTime := currentTime s;
     isPlaying := isPlaying s; isLoading := isLoading s;
     videoStatus := videoStatus s; videoRef := videoRef s |}.

Definition setCurrentTime (v : Q) (s : State) : State :=
  {| startTime := startTime s; endTime := endTime s; currentTime := v;
     isPlaying := isPlaying s; isLoading := isLoading s;
     videoStatus := videoStatus s; videoRef := videoRef s |}.

Definition setIsPlaying (v : bool) (s : State) : State :=
  {| startTime := startTime s; endTime := endTime s;
     currentTime := currentTime s;
     isPlaying := v; isLoading := isLoading s;
     videoStatus := videoStatus s; videoRef := videoRef s |}.

Definition setIsLoading (v : bool) (s : State) : State :=
  {| startTime := startTime s; endTime := endTime s;
     currentTime := currentTime s;
     isPlaying := isPlaying s; isLoading := v;
     videoStatus := videoStatus s; videoRef := videoRef s |}.

Definition setVideoStatus (v : status) (s : State) : State :=
  {| startTime := startTime s; endTime := endTime s;
     currentTime := currentTime s;
     isPlaying := isPlaying s; isLoading := isLoading s;
     videoStatus := Some v; videoRef := videoRef s |}.

Definition setVideoRef (v : bool) (s : State) : State :=
  {| startTime := startTime s; endTime := endTime s;
     currentTime := currentTime s;
     isPlaying := isPlaying s; isLoading := isLoading s;
     videoStatus := videoStatus s; videoRef := v |}.

(** The values the [useState] and [useRef] calls start from. *)
Definition initialState : State :=
  {| startTime := 0; endTime := 0; currentTime := 0;
     isPlaying := false; isLoading := true;
     videoStatus := None; videoRef := false |}.

(** The first [useEffect]: without a [videoUri] it alerts and returns;
    otherwise it caps the initial end point and clears [isLoading]. *)
Definition mountEffect (p : Props) (s : State) : State :=
  if negb (JS.truthy_str (videoUri p)) then s
  else
    let s1 :=
      if JS.truthy (videoDuration p) then
        let initialEndTime := Qmin (videoDuration p) 30000 in
        setEndTime initialEndTime s
      else s in
    setIsLoading false s1.

(** The state of the screen once it has loaded. *)
Definition mounted (p : Props) : State := mountEffect p initialState.

(** [handlePlayPause]; [ok] tells whether the player's promise resolved. *)
Definition handlePlayPause (s : State) (ok : bool) : State * list command :=
  if videoRef s then
    let c := if isPlaying s then pauseAsync else playAsync in
    ((if ok then setIsPlaying (negb (isPlaying s)) s else s), [c])
  else (s, []).

Definition handleVideoStatusUpdate (s : State) (st : status)
  : State * list command :=
  let s1 := setVideoStatus st s in
  if isLoaded st then
    let s2 := setCurrentTime (JS.or_zero (positionMillis st)) s1 in
    let s3 := setIsPlaying (st_isPlaying st || false) s2 in
    if JS.leb (endTime s) (positionMillis st) then
      (s3, via_ref (videoRef s) (setPositionAsync (startTime s)))
    else (s3, [])
  else (s1, []).

Definition handleStartTimeChange (s : State) (newStartTime : Q)
  : State * list command :=
  let clampedStartTime := Qmax 0 (Qmin (endTime s - 1000) newStartTime) in
  let s1 := setStartTime clampedStartTime s in
  if JS.ltb (currentTime s) clampedStartTime then
    (s1, via_ref (videoRef s) (setPositionAsync clampedStartTime))
  else (s1, []).

Definition handleEndTimeChange (p : Props) (s : State) (newEndTime : Q)
  : State * list command :=
  let clampedEndTime :=
    Qmax (startTime s + 1000) (Qmin (videoDuration p) newEndTime) in
  let s1 := setEndTime clampedEndTime s in
  if JS.ltb clampedEndTime (currentTime s) then
    (s1, via_ref (videoRef s) (setPositionAsync clampedEndTime))
  else (s1, []).

(** [handlePreviewTrimmed]; [ok1] and [ok2] tell whether the seek and the
    play promises resolved. *)
Definition handlePreviewTrimmed (s : State) (ok1 ok2 : bool)
  : State * list command :=
  if videoRef s then
    if ok1 then
      ((if ok2 then setIsPlaying true s else s),
       [setPositionAsync (startTime s); playAsync])
    else (s, [setPositionAsync (startTime s)])
  else (s, []).

(** The parameters the trim screen hands to the playback screen. *)
Record PlayerParams : Type := {
  pp_videoUri : option string;
  pp_startTime : Q;
  pp_endTime : Q;
  pp_originalDuration : Q;
  pp_trimmedDuration : Q
}.

(** What [handleProceedToPlayer] ends in: an alert with its title and
    message, or the navigation to [VideoPlayer]. *)
Inductive outcome : Type :=
| Alerted (title message : string)
| Navigated (screen : string) (params : PlayerParams).

Definition handleProceedToPlayer (p : Props) (s : State)
  : State * list command * outcome :=
  if negb (JS.truthy_str (videoUri p)) then
    (s, [], Alerted "Error" "No video to trim")
  else if JS.leb (endTime s) (startTime s) then
    (s, [], Alerted "Error" "Start time must be less than end time")
  else
    let trimmedDuration := endTime s - startTime s in
    if JS.ltb trimmedDuration 1000 then
      (s, [], Alerted "Error" "Trimmed duration must be at least 1 second")
    else
      let '(s1, c1) :=
        if videoRef s && isPlaying s
        then (setIsPlaying false s, [pauseAsync])
        else (s, []) in
      (s1, c1,
       Navigated "VideoPlayer"
         {| pp_videoUri := videoUri p;
            pp_startTime := startTime s;
            pp_endTime := endTime s;
            pp_originalDuration := videoDuration p;
            pp_trimmedDuration := trimmedDuration |}).

(** Everything that can happen to the loaded screen. *)
Inductive event : Type :=
| StartTimeChange (newStartTime : Q)
| EndTimeChange (newEndTime : Q)
| StatusUpdate (st : status)
| PlayPause (ok : bool)
| PreviewTrimmed (ok1 ok2 : bool)
| ProceedToPlayer
| RefChange (attached : bool).

Definition step (p : Props) (s : State) (e : event) : State * list command :=
  match e with
  | StartTimeChange t => handleStartTimeChange s t
  | EndTimeChange t => handleEndTimeChange p s t
  | StatusUpdate st => handleVideoStatusUpdate s st
  | PlayPause ok => handlePlayPause s ok
  | PreviewTrimmed ok1 ok2 => handlePreviewTrimmed s ok1 ok2
  | ProceedToPlayer => fst (handleProceedToPlayer p s)
  | RefChange b => (setVideoRef b s, [])
  end.

(** The states after each event of a sequence, in order. *)
Fixpoint trace (p : Props) (s : State) (es : list event) : list State :=
  match es with
  | [] => []
  | e :: es' => let s' := fst (step p s e) in s' :: trace p s' es'
  end.

(** The states the loaded screen can be in. *)
Inductive reachable (p : Props) : State -> Prop :=
| reach_mounted : reachable p (mounted p)
| reach_step s e : reachable p s -> reachable p (fst (step p s e)).

(** The gap invariant: the start handle is not negative and the handles
    are at least one second apart. *)
Definition gap_ok (s : State) : Prop :=
  0 <= startTime s /\ startTime s + 1000 <= endTime s.

(** The domain invariant of a video of at least one second. *)
Definition domain_ok (p : Props) (s : State) : Prop :=
  0 <= startTime s /\ endTime s <= videoDuration p
  /\ startTime s + 1000 <= videoDuration p.


End Trimmer.

(** ** The playback screen ([VideoPlayerScreen]) *)

Module Player.

Local Open Scope Q_scope.

(** [route.params], after the defaults of the destructuring. *)
Record Props : Type := {
  videoUri : option string;
  startTime : Q;
  endTime : Q;
  originalDuration : Q;
  trimmedDuration : Q
}.

(** Where the asynchronous body of [initializeVideo] is suspended. *)
Inductive init_stage : Type :=
| NotStarted   (* [initializeVideo] has not passed its guard *)
| Delay        (* awaiting the 1000 ms timer *)
| Pausing      (* awaiting [pauseAsync()] *)
| Seeking      (* awaiting [setPositionAsync(startTime)] *)
| Settle       (* awaiting the 500 ms timer *)
| Done         (* the state updates have been made *)
| Failed.      (* the [catch] block ran *)

(** The [useState] cells, the two refs and the pending initialisation. *)
Record State : Type := {
  isPlaying : bool;
  currentTime : Q;
  playbackSpeed : Q;
  isLooping : bool;
  videoLoaded : bool;
  isInitialized : bool;
  videoStatus : option status;
  videoRef : bool;
  initializationAttempted : bool;
  initTask : init_stage
}.

Definition setIsPlaying (v : bool) (s : State) : State :=
  {| isPlaying := v; currentTime := currentTime s;
     playbackSpeed := playbackSpeed s; isLooping := isLooping s;
     videoLoaded := videoLoaded s; isInitialized := isInitialized s;
     videoStatus := videoStatus s; videoRef := videoRef s;
     initializationAttempted := initializationAttempted s;
     initTask := initTask s |}.

Definition setCurrentTime (v : Q) (s : State) : State :=
  {| isPlaying := isPlaying s; currentTime := v;
     playbackSpeed := playbackSpeed s; isLooping := isLooping s;
     videoLoaded := videoLoaded s; isInitialized := isInitialized s;
     videoStatus := videoStatus s; videoRef := videoRef s;
     initializationAttempted := initializationAttempted s;
     initTask := initTask s |}.

Definition setPlaybackSpeed (v : Q) (s : State) : State :=
  {| isPlaying := isPlaying s; currentTime := currentTime s;
     playbackSpeed := v; isLooping := isLooping s;
     videoLoaded := videoLoaded s; isInitialized := isInitialized s;
     videoStatus := videoStatus s; videoRef := videoRef s;
     initializationAttempted := initializationAttempted s;
     initTask := initTask s |}.

Definition setIsLooping (v : bool) (s : State) : State :=
  {| isPlaying := isPlaying s; currentTime := currentTime s;
     playbackSpeed := playbackSpeed s; isLooping := v;
     videoLoaded := videoLoaded s; isInitialized := isInitialized s;
     videoStatus := videoStatus s; videoRef := videoRef s;
     initializationAttempted := initializationAttempted s;
     initTask := initTask s |}.

Definition setVideoLoaded (v : bool) (s : State) : State :=
  {| isPlaying := isPlaying s; currentTime := currentTime s;
     playbackSpeed := playbackSpeed s; isLooping := isLooping s;
     videoLoaded := v; isInitialized := isInitialized s;
     videoStatus := videoStatus s; videoRef := videoRef s;
     initializationAttempted := initializationAttempted s;
     initTask := initTask s |}.

Definition setIsInitialized (v : bool) (s : State) : State :=
  {| isPlaying := isPlaying s; currentTime := currentTime s;
     playbackSpeed := playbackSpeed s; isLooping := isLooping s;
     videoLoaded := videoLoaded s; isInitialized := v;
     videoStatus := videoStatus s; videoRef := videoRef s;
     initializationAttempted := initializationAttempted s;
     initTask := initTask s |}.

Definition setVideoStatus (v : status) (s : State) : State :=
  {| isPlaying := isPlaying s; currentTime := currentTime s;
     playbackSpeed := playbackSpeed s; isLooping := isLooping s;
     videoLoaded := videoLoaded s; isInitialized := isInitialized s;
     videoStatus := Some v; videoRef := videoRef s;
     initializationAttempted := initializationAttempted s;
     initTask := initTask s |}.

Definition setVideoRef (v : bool) (s : State) : State :=
  {| isPlaying := isPlaying s; currentTime := currentTime s;
     playbackSpeed := playbackSpeed s; isLooping := isLooping s;
     videoLoaded := videoLoaded s; isInitialized := isInitialized s;
     videoStatus := videoStatus s; videoRef := v;
     initializationAttempted := initializationAttempted s;
     initTask := initTask s |}.

Definition setInitializationAttempted (v : bool) (s : State) : State :=
  {| isPlaying := isPlaying s; currentTime := currentTime s;
     playbackSpeed := playbackSpeed s; isLooping := isLooping s;
     videoLoaded := videoLoaded s; isInitialized := isInitialized s;
     videoStatus := videoStatus s; videoRef := videoRef s;
     initializationAttempted := v;
     initTask := initTask s |}.

Definition setInitTask (v : init_stage) (s : State) : State :=
  {| isPlaying := isPlaying s; currentTime := currentTime s;
     playbackSpeed := playbackSpeed s; isLooping := isLooping s;
     videoLoaded := videoLoaded s; isInitialized := isInitialized s;
     videoStatus := videoStatus s; videoRef := videoRef s;
     initializationAttempted := initializationAttempted s;
     initTask := v |}.

(** Who issued a command: the one-shot initialisation, the steady-state
    rule of [handleVideoStatusUpdate], or a handler behind a button or a
    navigation event. *)
Inductive origin : Type := ByInit | BySteady | ByUser.

Definition log : Type := list (origin * command).

Definition tagged (o : origin) (cs : list command) : log :=
  map (fun c => (o, c)) cs.

Definition playbackSpeeds : list Q := [0.5; 1.0; 1.25; 1.5; 2.0].

(** The values the [useState] and [useRef] calls start from. *)
Definition initialState (p : Props) : State :=
  {| isPlaying := false; currentTime := startTime p;
     playbackSpeed := 1.0; isLooping := true;
     videoLoaded := false; isInitialized := false;
     videoStatus := None; videoRef := false;
     initializationAttempted := false;
     initTask := NotStarted |}.

(** The first [useEffect]: with a [videoUri] it resets the initialisation
    flags and the position. *)
Definition mountEffect (p : Props) (s : State) : State :=
  if negb (JS.truthy_str (videoUri p)) then s
  else
    setCurrentTime (startTime p)
      (setVideoLoaded false
         (setIsInitialized false
            (setInitializationAttempted false s))).

Definition mounted (p : Props) : State := mountEffect p (initialState p).

(** [initializeVideo], up to its first [await]: the guard and the one-shot
    flag. *)
Definition initializeVideo (s : State) : State :=
  if negb (videoRef s) || initializationAttempted s || isInitialized s
  then s
  else setInitTask Delay (setInitializationAttempted true s).

(** The four state updates that end the [try] block. *)
Definition finishInitialization (p : Props) (s : State) : State :=
  setInitTask Done
    (setIsPlaying false
       (setVideoLoaded true
          (setIsInitialized true
             (setCurrentTime (startTime p) s)))).

(** [initializeVideo], resumed after the promise it awaits has settled;
    [ok] tells whether that promise resolved (timers always do).  A call
    on a [videoRef.current] that is [null] throws into the [catch]. *)
Definition resumeInitialization (p : Props) (s : State) (ok : bool)
  : State * list command :=
  match initTask s with
  | Delay =>
      if videoRef s then (setInitTask Pausing s, [pauseAsync])
      else (setInitTask Failed s, [])
  | Pausing =>
      if ok then
        if JS.ltb 0 (startTime p) then
          if videoRef s
          then (setInitTask Seeking s, [setPositionAsync (startTime p)])
          else (setInitTask Failed s, [])
        else (finishInitialization p s, [])
      else (setInitTask Failed s, [])
  | Seeking =>
      if ok then (setInitTask Settle s, [])
      else (setInitTask Failed s, [])
  | Settle => (finishInitialization p s, [])
  | NotStarted | Done | Failed => (s, [])
  end.

(** The steady-state rule: the body of [if (isInitialized)] in
    [handleVideoStatusUpdate].  The two boundary tests are two separate
    [if] statements. *)
Definition steadyState (p : Props) (s : State) (st : status)
  : State * list command :=
  let s1 := setVideoStatus st s in
  let positionMs := JS.or_zero (positionMillis st) in
  let s2 := setCurrentTime positionMs s1 in
  let s3 := setIsPlaying (st_isPlaying st || false) s2 in
  let '(s4, c4) :=
    if JS.leb (endTime p) positionMs && st_isPlaying st then
      if isLooping s then
        (setCurrentTime (startTime p) s3,
         via_ref (videoRef s) (setPositionAsync (startTime p)))
      else
        (setIsPlaying false s3, via_ref (videoRef s) pauseAsync)
    else (s3, []) in
  let '(s5, c5) :=
    if JS.ltb positionMs (startTime p) && st_isPlaying st then
      (setCurrentTime (startTime p) s4,
       via_ref (videoRef s) (setPositionAsync (startTime p)))
    else (s4, []) in
  (s5, c4 ++ c5).

Definition handleVideoStatusUpdate (p : Props) (s : State) (st : status)
  : State * list command :=
  if negb (isLoaded st) then (s, [])
  else if isLoaded st && negb (isInitialized s)
          && negb (initializationAttempted s)
  then (initializeVideo s, [])
  else if isInitialized s then steadyState p s st
  else (s, []).

(** [handlePlayPause]; [ok1] and [ok2] tell whether the first and the
    second awaited promise resolved. *)
Definition handlePlayPause (p : Props) (s : State) (ok1 ok2 : bool)
  : State * list command :=
  if negb (videoRef s) || negb (videoLoaded s) || negb (isInitialized s)
  then (s, [])
  else if isPlaying s then
    ((if ok1 then setIsPlaying false s else s), [pauseAsync])
  else if JS.ltb (currentTime s) (startTime p)
          || JS.leb (endTime p) (currentTime s)
  then
    if ok1 then
      let s1 := setCurrentTime (startTime p) s in
      ((if ok2 then setIsPlaying true s1 else s1),
       [setPositionAsync (startTime p); playAsync])
    else (s, [setPositionAsync (startTime p)])
  else
    ((if ok1 then setIsPlaying true s else s), [playAsync]).

(** [playbackSpeeds.indexOf(x)], with [-1] for an absent value. *)
Fixpoint indexOf (l : list Q) (x : Q) : Z :=
  match l with
  | [] => (-1)%Z
  | y :: l' =>
      if Qeq_bool y x then 0%Z
      else let i := indexOf l' x in
           if (i <? 0)%Z then (-1)%Z else (i + 1)%Z
  end.

Definition handleSpeedChange (s : State) : State * list command :=
  if negb (videoRef s) || negb (videoLoaded s) || negb (isInitialized s)
  then (s, [])
  else
    let currentIndex := indexOf playbackSpeeds (playbackSpeed s) in
    let nextIndex :=
      Z.rem (currentIndex + 1) (Z.of_nat (List.length playbackSpeeds)) in
    let newSpeed := nth (Z.to_nat nextIndex) playbackSpeeds 0 in
    (setPlaybackSpeed newSpeed s, [setRateAsync newSpeed true]).

Definition handleToggleLoop (s : State) : State :=
  setIsLooping (negb (isLooping s)) s.

(** [handleRestart]; [ok1] and [ok2] as in [handlePlayPause]. *)
Definition handleRestart (p : Props) (s : State) (ok1 ok2 : bool)
  : State * list command :=
  if negb (videoRef s) || negb (videoLoaded s) || negb (isInitialized s)
  then (s, [])
  else if ok1 then
    let s1 := setCurrentTime (startTime p) s in
    ((if ok2 then setIsPlaying true s1 else s1),
     [setPositionAsync (startTime p); playAsync])
  else (s, [setPositionAsync (startTime p)]).

(** The pause on blur, on [beforeRemove], and at the head of
    [handleEditTrim] and [handleNewVideo]. *)
Definition pauseOnLeave (s : State) : State * list command :=
  if videoRef s && isPlaying s
  then (setIsPlaying false s, [pauseAsync])
  else (s, []).

(** What can happen to the mounted screen: a notification, a settled
    promise of the initialisation, a press, leaving, a change of the
    ref.  [Leave] is the cleanup of the focus effect and the
    [beforeRemove] listener, reading the [isPlaying] of the current
    render; React's re-run of that cleanup with the [isPlaying] of the
    render before, when [isPlaying] changes, is not among the events. *)
Inductive event : Type :=
| StatusUpdate (st : status)
| Settled (ok : bool)
| PlayPause (ok1 ok2 : bool)
| SpeedChange
| ToggleLoop
| Restart (ok1 ok2 : bool)
| Leave
| RefChange (attached : bool).

Definition step (p : Props) (s : State) (e : event) : State * log :=
  match e with
  | StatusUpdate st =>
      let '(s', cs) := handleVideoStatusUpdate p s st in
      (s', tagged BySteady cs)
  | Settled ok =>
      let '(s', cs) := resumeInitialization p s ok in
      (s', tagged ByInit cs)
  | PlayPause ok1 ok2 =>
      let '(s', cs) := handlePlayPause p s ok1 ok2 in (s', tagged ByUser cs)
  | SpeedChange =>
      let '(s', cs) := handleSpeedChange s in (s', tagged ByUser cs)
  | ToggleLoop => (handleToggleLoop s, [])
  | Restart ok1 ok2 =>
      let '(s', cs) := handleRestart p s ok1 ok2 in (s', tagged ByUser cs)
  | Leave =>
      let '(s', cs) := pauseOnLeave s in (s', tagged ByUser cs)
  | RefChange b => (setVideoRef b s, [])
  end.

(** The state after a sequence of events, and everything sent to the
    player on the way. *)
Fixpoint run (p : Props) (s : State) (es : list event) : State * log :=
  match es with
  | [] => (s, [])
  | e :: es' =>
      let '(s1, l1) := step p s e in
      let '(s2, l2) := run p s1 es' in
      (s2, l1 ++ l2)
  end.

Definition origin_eqb (a b : origin) : bool :=
  match a, b with
  | ByInit, ByInit | BySteady, BySteady | ByUser, ByUser => true
  | _, _ => false
  end.

(** The commands of one origin in a log. *)
Definition issuedBy (o : origin) (l : log) : list command :=
  map snd (filter (fun oc => origin_eqb (fst oc) o) l).

(** How many commands of a list satisfy a test. *)
Definition count (f : command -> bool) (cs : list command) : nat :=
  List.length (filter f cs).

Definition isPause (c : command) : bool :=
  match c with pauseAsync => true | _ => false end.

Definition isSeek (c : command) : bool :=
  match c with setPositionAsync _ => true | _ => false end.

(** The per-notification view of a run of status notifications: the
    commands each one caused and the position recorded after it. *)
Fixpoint feed (p : Props) (s : State) (sts : list status)
  : list (list command * Q) :=
  match sts with
  | [] => []
  | st :: sts' =>
      let '(s', cs) := handleVideoStatusUpdate p s st in
      (cs, currentTime s') :: feed p s' sts'
  end.

(** The commands of a completed initialisation. *)
Definition initCommands (p : Props) : list command :=
  pauseAsync
  :: (if JS.ltb 0 (startTime p) then [setPositionAsync (startTime p)]
      else []).

Definition started (t : init_stage) : bool :=
  match t with NotStarted => false | _ => true end.

Definition completed (t : init_stage) : bool :=
  match t with Done => true | _ => false end.

(** What the initialisation has sent when it is suspended at a stage. *)
Definition sent (p : Props) (t : init_stage) (cs : list command) : Prop :=
  match t with
  | NotStarted | Delay => cs = []
  | Pausing => cs = [pauseAsync]
  | Seeking | Settle =>
      cs = [pauseAsync; setPositionAsync (startTime p)]
      /\ JS.ltb 0 (startTime p) = true
  | Done => cs = initCommands p
  | Failed =>
      cs = [] \/ cs = [pauseAsync]
      \/ cs = [pauseAsync; setPositionAsync (startTime p)]
  end.

(** The invariant of a load: the flags follow the stage of the
    initialisation, the initialisation has sent what its stage says, and
    nothing else has been sent while the screen is not initialised. *)
Definition load_inv (p : Props) (s : State) (l : log) : Prop :=
  initializationAttempted s = started (initTask s)
  /\ isInitialized s = completed (initTask s)
  /\ sent p (initTask s) (issuedBy ByInit l)
  /\ (isInitialized s = false ->
      isPlaying s = false
      /\ issuedBy BySteady l = [] /\ issuedBy ByUser l = []).

End Player.

(** ** The timeline slider ([CustomTimelineSlider]) *)

Module Slider.

(** The operations of JavaScript numbers the component uses. *)
Class Number (N : Type) : Type := {
  lit : Z -> N;
  n_add : N -> N -> N;
  n_sub : N -> N -> N;
  n_mul : N -> N -> N;
  n_div : N -> N -> N;
  n_max : N -> N -> N;
  n_min : N -> N -> N;
  n_leb : N -> N -> bool
}.

Declare Scope num_scope.
Delimit Scope num_scope with num.
Notation "x + y" := (n_add x y) : num_scope.
Notation "x - y" := (n_sub x y) : num_scope.
Notation "x * y" := (n_mul x y) : num_scope.
Notation "x / y" := (n_div x y) : num_scope.

(** [Math.max] and [Math.min] on binary64: [NaN] is contagious and [+0]
    is larger than [-0]. *)
Definition float_max (a b : float) : float :=
  if (PrimFloat.is_nan a || PrimFloat.is_nan b)%bool then PrimFloat.nan
  else if PrimFloat.ltb a b then b
  else if PrimFloat.ltb b a then a
  else if PrimFloat.get_sign a then b else a.

Definition float_min (a b : float) : float :=
  if (PrimFloat.is_nan a || PrimFloat.is_nan b)%bool then PrimFloat.nan
  else if PrimFloat.ltb a b then a
  else if PrimFloat.ltb b a then b
  else if PrimFloat.get_sign a then a else b.

Definition float_lit (z : Z) : float :=
  match z with
  | Z0 => PrimFloat.zero
  | Zpos _ => PrimFloat.of_uint63 (Uint63.of_Z z)
  | Zneg _ => PrimFloat.opp (PrimFloat.of_uint63 (Uint63.of_Z (Z.opp z)))
  end.

(** Numbers as the engine has them: IEEE 754 binary64. *)
#[export] Instance Binary64 : Number float := {
  lit := float_lit;
  n_add := PrimFloat.add;
  n_sub := PrimFloat.sub;
  n_mul := PrimFloat.mul;
  n_div := PrimFloat.div;
  n_max := float_max;
  n_min := float_min;
  n_leb := PrimFloat.leb
}.

(** Numbers without rounding: exact rationals.  [Qdiv] by zero is zero, so
    this reading is only used where every divisor is non-zero. *)
#[export] Instance Exact : Number Q := {
  lit := inject_Z;
  n_add := Qplus;
  n_sub := Qminus;
  n_mul := Qmult;
  n_div := Qdiv;
  n_max := Qmax;
  n_min := Qmin;
  n_leb := Qle_bool
}.

Section Component.

Context {N : Type} {num : Number N}.

Local Open Scope num_scope.

(** [Dimensions.get('window').width], fixed by the device. *)
Variable screenWidth : N.

Definition SLIDER_WIDTH : N := screenWidth - lit 40.
Definition HANDLE_SIZE : N := lit 24.

(** The props of the component. *)
Record Props : Type := {
  duration : N;
  startTime : N;
  endTime : N;
  currentTime : N
}.

Definition startPosition (p : Props) : N :=
  (startTime p / duration p) * SLIDER_WIDTH.

Definition endPosition (p : Props) : N :=
  (endTime p / duration p) * SLIDER_WIDTH.

Definition currentPosition (p : Props) : N :=
  (currentTime p / duration p) * SLIDER_WIDTH.

(** The call a move of a handle makes on the owning screen. *)
Inductive callback : Type :=
| onStartTimeChange (t : N)
| onEndTimeChange (t : N).

(** The pan responders claim every touch and every move. *)
Definition onStartShouldSetPanResponder (p : Props) : bool := true.
Definition onMoveShouldSetPanResponder (p : Props) : bool := true.

(** [newTime] in [onPanResponderMove]. *)
Definition newTime (p : Props) (clampedPosition : N) : N :=
  (clampedPosition / SLIDER_WIDTH) * duration p.

Definition onPanResponderMove (isStart : bool) (p : Props) (dx : N)
  : callback :=
  let currentPos := if isStart then startPosition p else endPosition p in
  let newPosition := currentPos + dx in
  if isStart then
    let clampedPosition :=
      n_max (lit 0) (n_min (endPosition p - lit 30) newPosition) in
    onStartTimeChange (n_max (lit 0) (newTime p clampedPosition))
  else
    let clampedPosition :=
      n_max (startPosition p + lit 30) (n_min SLIDER_WIDTH newPosition) in
    onEndTimeChange (n_min (duration p) (newTime p clampedPosition)).

(** One tick of [renderTimeMarkers]: its [left] offset and its time. *)
Definition timeMarker (p : Props) (i : Z) : N * N :=
  let markerCount := lit 6 in
  let position := (lit i / markerCount) * SLIDER_WIDTH in
  let time := (lit i / markerCount) * duration p in
  (position - lit 15, time).

Definition renderTimeMarkers (p : Props) : list (N * N) :=
  map (timeMarker p) [0; 1; 2; 3; 4; 5; 6]%Z.

(** The [left] offsets of the two handles. *)
Definition startHandleLeft (p : Props) : N :=
  startPosition p - HANDLE_SIZE / lit 2.

Definition endHandleLeft (p : Props) : N :=
  endPosition p - HANDLE_SIZE / lit 2.

(** The current time indicator is drawn inside the selected range only. *)
Definition currentTimeIndicator (p : Props) : option N :=
  if (n_leb (startTime p) (currentTime p)
      && n_leb (currentTime p) (endTime p))%bool
  then Some (currentPosition p) else None.

End Component.

Arguments Props N : clear implicits.
Arguments callback N : clear implicits.

End Slider.

(** ** Binary64 numbers and their values *)

Module B64.

Local Open Scope Q_scope.

(** The exponent function of binary64. *)
Abbreviation fexp64 := (SpecFloat.fexp prec emax).

(** The value [m * 2^e]. *)
Definition scaled (m e : Z) : Q := inject_Z m * 2 ^ e.

(** [v] lies in the cell of [m] at exponent [e]. *)
Definition cell (m e : Z) (v : Q) : Prop :=
  scaled m e <= v /\ v < scaled (m + 1) e.

(** The number a binary64 datum stands for, if it is one. *)
Definition SF2Q (x : spec_float) : option Q :=
  match x with
  | S754_zero _ => Some 0
  | S754_finite s m e =>
      Some (if s then - scaled (Zpos m) e else scaled (Zpos m) e)
  | S754_infinity _ | S754_nan => None
  end.

Definition value (x : float) : option Q := SF2Q (Prim2SF x).

(** The absolute and the relative part of the error of one rounding, and
    a numeral above both. *)
Definition tiny : Q := 2 ^ (-1073).
Definition eps : Q := 2 ^ (-51).
Definition k40 : Q := 1 # 1099511627776.

(** The value of a finite datum, and 0 for the others. *)
Definition number (x : float) : Q :=
  match value x with Some q => q | None => 0 end.

End B64.

(** ** Sample inputs *)

Module Samples.

Local Open Scope Q_scope.

(** A 45 second clip on the trim screen. *)
Definition clip45 : Trimmer.Props :=
  {| Trimmer.videoUri := Some "file:///clip.mp4"%string;
     Trimmer.videoDuration := 45000 |}.

(** A clip of half a second. *)
Definition clip05 : Trimmer.Props :=
  {| Trimmer.videoUri := Some "file:///short.mp4"%string;
     Trimmer.videoDuration := 500 |}.

(** The loaded trim screen with the handles at [a] and [b]. *)
Definition range (a b : Q) : Trimmer.State :=
  {| Trimmer.startTime := a; Trimmer.endTime := b;
     Trimmer.currentTime := 0; Trimmer.isPlaying := false;
     Trimmer.isLoading := false; Trimmer.videoStatus := None;
     Trimmer.videoRef := true |}.

(** The slider of a trim screen that was given no duration: every time
    is still at its initial 0. *)
Definition degenerate : Slider.Props float :=
  {| Slider.duration := 0%float; Slider.startTime := 0%float;
     Slider.endTime := 0%float; Slider.currentTime := 0%float |}.

(** A window of 390 points, in binary64 and as a rational. *)
Definition width390 : float := 390%float.
Definition width390Q : Q := 390.

(** The slider with all three times at [t] on a video of [d] ms. *)
Definition allAt {N : Type} (d t : N) : Slider.Props N :=
  {| Slider.duration := d; Slider.startTime := t;
     Slider.endTime := t; Slider.currentTime := t |}.

(** The playback screen on the range from 2000 to 5000 ms. *)
Definition loop25 : Player.Props :=
  {| Player.videoUri := Some "file:///clip.mp4"%string;
     Player.startTime := 2000; Player.endTime := 5000;
     Player.originalDuration := 45000; Player.trimmedDuration := 3000 |}.

(** The playback screen on a range that starts at 0. *)
Definition fromZero : Player.Props :=
  {| Player.videoUri := Some "file:///clip.mp4"%string;
     Player.startTime := 0; Player.endTime := 5000;
     Player.originalDuration := 45000; Player.trimmedDuration := 5000 |}.

(** A status notification of a loaded, playing video at [ms]. *)
Definition playingAt (ms : Q) : status :=
  {| isLoaded := true; positionMillis := ms; st_isPlaying := true |}.

(** The four notifications of the loop scenario. *)
Definition loopScenario : list status :=
  map playingAt [1000; 3000; 5000; 5200].

(** A load of the playback screen: the ref is attached, the player
    reports that it has loaded (three times over), and every promise of
    the initialisation resolves. *)
Definition load : list Player.event :=
  [Player.RefChange true;
   Player.StatusUpdate (playingAt 0);
   Player.StatusUpdate (playingAt 40);
   Player.StatusUpdate (playingAt 80);
   Player.Settled true; Player.Settled true;
   Player.Settled true; Player.Settled true].

(** The playback screen after that load. *)
Definition ready (p : Player.Props) : Player.State :=
  fst (Player.run p (Player.mounted p) load).

End Samples.

(** ** The rest of the video utility module *)

Module VideoUtils.

Import Ascii.

Local Open Scope Q_scope.

(** [Number.prototype.toString] on an integer: its decimal digits, behind
    a minus sign if it is negative.  (The engine prints integers of a
    magnitude below 10^21 this way.) *)
Definition toString (z : Z) : string :=
  DecimalString.NilEmpty.string_of_int (Z.to_int z).

(** [s.padStart(n, c)] with a pad of one character. *)
Fixpoint pad (k : nat) (c : Ascii.ascii) (s : string) : string :=
  match k with
  | O => s
  | S k' => String c (pad k' c s)
  end.

Definition padStart (n : nat) (c : Ascii.ascii) (s : string) : string :=
  pad (n - String.length s) c s.

(** [Math.floor(x / y)] on integers. *)
Definition floorDiv (x y : Z) : Z := (x / y)%Z.

(** [formatTime]: minutes and two-digit seconds.  The quotient is taken
    exactly here; for a time from 0 to below 2^53, which is where the
    theorems use it, the floor of the quotient as the engine rounds it
    is the same: the numbers below a multiple [1000 * k] lie at least
    512 units in the last place of [k] under it, and the rounding of
    the quotient moves it by half a unit at most. *)
Definition formatTime (timeInMillis : Q) : string :=
  let totalSeconds := Qround.Qfloor (timeInMillis / 1000) in
  let minutes := floorDiv totalSeconds 60 in
  let seconds := Z.rem totalSeconds 60 in
  (toString minutes ++ ":" ++ padStart 2 "0"%char (toString seconds))%string.

(** [formatLongTime]: hours only when there are some (the quotient as in
    [formatTime]). *)
Definition formatLongTime (timeInMillis : Q) : string :=
  let totalSeconds := Qround.Qfloor (timeInMillis / 1000) in
  let hours := floorDiv totalSeconds 3600 in
  let minutes := floorDiv (Z.rem totalSeconds 3600) 60 in
  let seconds := Z.rem totalSeconds 60 in
  if (0 <? hours)%Z then
    (toString hours ++ ":" ++ padStart 2 "0"%char (toString minutes)
       ++ ":" ++ padStart 2 "0"%char (toString seconds))%string
  else
    (toString minutes ++ ":" ++ padStart 2 "0"%char (toString seconds))%string.

(** [s.split(c)] for a separator of one character. *)
Fixpoint split (c : Ascii.ascii) (s : string) : list string :=
  match s with
  | EmptyString => [EmptyString]
  | String a s' =>
      if Ascii.eqb a c then EmptyString :: split c s'
      else match split c s' with
           | [] => [String a EmptyString]
           | w :: ws => String a w :: ws
           end
  end.

Section TimeString.

(** The conversion [Number] of a string, with [None] for [NaN]; it is
    the engine's, and enters as a parameter. *)
Variable Number : string -> option Q.

(** [timeStringToMillis]: the first two fields of the split string; a
    missing field is [undefined], which makes the sum [NaN]. *)
Definition timeStringToMillis (timeString : string) : option Q :=
  match map Number (split ":"%char timeString) with
  | Some minutes :: Some seconds :: _ => Some ((minutes * 60 + seconds) * 1000)
  | _ => None
  end.

End TimeString.

(** A conversion that reads decimal digits, the part of [Number] the
    time strings need. *)
Definition decimalNumber (s : string) : option Q :=
  match DecimalString.NilEmpty.uint_of_string s with
  | Some d => Some (inject_Z (Z.of_uint d))
  | None => None
  end.

(** A string of decimal digits. *)
Definition isDigit (a : Ascii.ascii) : bool :=
  ((48 <=? nat_of_ascii a)%nat && (nat_of_ascii a <=? 57)%nat)%bool.

Fixpoint digits (s : string) : bool :=
  match s with
  | EmptyString => true
  | String a s' => (isDigit a && digits s')%bool
  end.

(** What the time strings need of [Number]: that it reads the decimal
    digits of a natural number below 2^53, behind any number of zeros, as
    that number. *)
Definition readsDecimal (Number : string -> option Q) : Prop :=
  forall (k : nat) (n : Z), (0 <= n < 9007199254740992)%Z ->
    Number (pad k "0"%char (toString n)) = Some (inject_Z n).

(** What a JavaScript expression evaluates to here: a number or a
    boolean. *)
Inductive jsvalue : Type :=
| JNumber (q : Q)
| JBool (b : bool).

Definition truthy_value (v : jsvalue) : bool :=
  match v with
  | JNumber q => JS.truthy q
  | JBool b => b
  end.

(** [isValidVideoDuration]: [duration && duration > minDuration]. *)
Definition isValidVideoDuration (duration minDuration : Q) : jsvalue :=
  if JS.truthy duration then JBool (JS.ltb minDuration duration)
  else JNumber duration.

(** [calculateProgress]. *)
Definition calculateProgress (currentTime totalTime : Q) : Q :=
  if negb (JS.truthy totalTime) || Qeq_bool totalTime 0 then 0
  else Qmax 0 (Qmin 100 ((currentTime / totalTime) * 100)).

End VideoUtils.

(** ** The selection screen ([VideoSelectionScreen]) *)

Module Selection.

Local Open Scope Q_scope.

(** An asset of the picker: [duration] may be missing. *)
Record asset : Type := {
  uri : option string;
  duration : option Q
}.

(** What the picker resolves to. *)
Record pickerResult : Type := {
  canceled : bool;
  assets : option (list asset)
}.

(** What [pickVideo] and [recordVideo] end in. *)
Inductive outcome : Type :=
| Alerted (title message : string)
| Navigated (screen : string) (params : Trimmer.Props)
| Stayed.

(** [video.duration || 10000]. *)
Definition durationOrFallback (d : option Q) : Q :=
  match d with
  | Some q => if JS.truthy q then q else 10000
  | None => 10000
  end.

(** [pickVideo] (and [recordVideo], which differs in the picker it
    launches and in the text of its alert); [result] is [None] when the
    picker throws.  The second component is [isLoading] afterwards. *)
Definition pickVideo (failure : string) (hasPermissions : bool)
  (result : option pickerResult) : outcome * bool :=
  if negb hasPermissions then
    (Alerted "Error" "Permissions not granted", false)
  else
    match result with
    | None => (Alerted "Error" failure, false)
    | Some r =>
        if negb (canceled r) then
          match assets r with
          | Some (video :: _) =>
              (Navigated "VideoTrimmer"
                 {| Trimmer.videoUri := uri video;
                    Trimmer.videoDuration :=
                      durationOrFallback (duration video) |}, false)
          | _ => (Stayed, false)
          end
        else (Stayed, false)
    end.

End Selection.

(** ** The rest of the playback screen *)

Module PlayerView.

Local Open Scope Q_scope.

Import Player.

(** [trimmedProgress], computed on every render (the quotient taken
    exactly). *)
Definition trimmedProgress (p : Props) (s : State) : Q :=
  if JS.ltb (startTime p) (endTime p) then
    ((currentTime s - startTime p) / (endTime p - startTime p)) * 100
  else 0.

(** The width of the progress fill, in percent. *)
Definition progressFillWidth (p : Props) (s : State) : Q :=
  Qmax 0 (Qmin 100 (trimmedProgress p s)).

(** The route parameters as the playback screen destructures them. *)
Definition ofParams (q : Trimmer.PlayerParams) : Props :=
  {| videoUri := Trimmer.pp_videoUri q;
     startTime := Trimmer.pp_startTime q;
     endTime := Trimmer.pp_endTime q;
     originalDuration := Trimmer.pp_originalDuration q;
     trimmedDuration := Trimmer.pp_trimmedDuration q |}.

(** [handleEditTrim]: the pause, then the way back to the trim screen. *)
Definition handleEditTrim (p : Props) (s : State)
  : State * list command * option Trimmer.Props :=
  let '(s1, c1) := pauseOnLeave s in
  (s1, c1,
   if JS.truthy_str (videoUri p)
   then Some {| Trimmer.videoUri := videoUri p;
                Trimmer.videoDuration := originalDuration p |}
   else None).

(** Pressing the speed button [n] times. *)
Fixpoint pressSpeed (n : nat) (s : State) : State :=
  match n with
  | O => s
  | S n' => pressSpeed n' (fst (handleSpeedChange s))
  end.

End PlayerView.

(** ** The trim screen and its slider *)

Module TrimmerView.

Local Open Scope Q_scope.

Import Trimmer.

(** Where a command of the trim screen may seek: inside the range the
    handles have after the event. *)
Definition seeksInside (s' : State) (c : command) : Prop :=
  match c with
  | setPositionAsync x => startTime s' <= x /\ x <= endTime s'
  | pauseAsync | playAsync => True
  | setRateAsync _ _ => False
  end.

End TrimmerView.

(** ** The trim range in the arithmetic of the engine *)

Module Trimmer64.

Local Open Scope float_scope.

(** The cells of the trim screen that hold times, as the binary64
    numbers they are, with the player ref and [isPlaying]. *)
Record State : Type := {
  startTime : float;
  endTime : float;
  currentTime : float;
  isPlaying : bool;
  videoRef : bool
}.

(** What the screen sends to the player. *)
Inductive command : Type :=
| pauseAsync
| setPositionAsync (positionMillis : float).

Definition via_ref (attached : bool) (c : command) : list command :=
  if attached then [c] else [].

(** Truthiness of a number: everything but [0], [-0] and [NaN]. *)
Definition truthy (x : float) : bool :=
  negb (PrimFloat.is_nan x || PrimFloat.is_zero x).

Definition initialState : State :=
  {| startTime := 0; endTime := 0; currentTime := 0;
     isPlaying := false; videoRef := false |}.

(** The first [useEffect] of a screen that was given a [videoUri]. *)
Definition mounted (videoDuration : float) : State :=
  if truthy videoDuration then
    {| startTime := startTime initialState;
       endTime := Slider.float_min videoDuration 30000;
       currentTime := currentTime initialState;
       isPlaying := isPlaying initialState;
       videoRef := videoRef initialState |}
  else initialState.

Definition handleStartTimeChange (s : State) (newStartTime : float)
  : State * list command :=
  let clampedStartTime :=
    Slider.float_max 0 (Slider.float_min (endTime s - 1000) newStartTime) in
  let s1 :=
    {| startTime := clampedStartTime; endTime := endTime s;
       currentTime := currentTime s; isPlaying := isPlaying s;
       videoRef := videoRef s |} in
  if currentTime s <? clampedStartTime then
    (s1, via_ref (videoRef s) (setPositionAsync clampedStartTime))
  else (s1, []).

Definition handleEndTimeChange (videoDuration : float) (s : State)
  (newEndTime : float) : State * list command :=
  let clampedEndTime :=
    Slider.float_max (startTime s + 1000)
      (Slider.float_min videoDuration newEndTime) in
  let s1 :=
    {| startTime := startTime s; endTime := clampedEndTime;
       currentTime := currentTime s; isPlaying := isPlaying s;
       videoRef := videoRef s |} in
  if clampedEndTime <? currentTime s then
    (s1, via_ref (videoRef s) (setPositionAsync clampedEndTime))
  else (s1, []).

(** What [handleProceedToPlayer] ends in, on a screen that was given a
    [videoUri]: an alert, or the navigation with the range. *)
Inductive outcome : Type :=
| Alerted (title message : string)
| Navigated (startTime endTime trimmedDuration : float).

Definition handleProceedToPlayer (s : State)
  : (State * list command) * outcome :=
  if endTime s <=? startTime s then
    ((s, []), Alerted "Error" "Start time must be less than end time")
  else
    let trimmedDuration := endTime s - startTime s in
    if trimmedDuration <? 1000 then
      ((s, []),
       Alerted "Error" "Trimmed duration must be at least 1 second")
    else
      ((if (videoRef s && isPlaying s)%bool
        then ({| startTime := startTime s; endTime := endTime s;
                 currentTime := currentTime s; isPlaying := false;
                 videoRef := videoRef s |}, [pauseAsync])
        else (s, [])),
       Navigated (startTime s) (endTime s) trimmedDuration).

(** The props the screen renders its slider with. *)
Definition sliderProps (videoDuration : float) (s : State)
  : Slider.Props float :=
  {| Slider.duration := videoDuration;
     Slider.startTime := startTime s;
     Slider.endTime := endTime s;
     Slider.currentTime := currentTime s |}.

(** The two setters, as the slider calls them. *)
Inductive event : Type :=
| StartTimeChange (newStartTime : float)
| EndTimeChange (newEndTime : float).

Definition request (e : event) : float :=
  match e with
  | StartTimeChange t => t
  | EndTimeChange t => t
  end.

Definition step (videoDuration : float) (s : State) (e : event)
  : State * list command :=
  match e with
  | StartTimeChange t => handleStartTimeChange s t
  | EndTimeChange t => handleEndTimeChange videoDuration s t
  end.

(** The handlers the screen passes as [onStartTimeChange] and
    [onEndTimeChange]. *)
Definition deliver (c : Slider.callback float) : event :=
  match c with
  | Slider.onStartTimeChange t => StartTimeChange t
  | Slider.onEndTimeChange t => EndTimeChange t
  end.

(** A move of a handle by [dx] pixels, from the responder of the slider
    to the state of the screen. *)
Definition drag (screenWidth : float) (isStart : bool) (dx : float)
  (videoDuration : float) (s : State) : State * list command :=
  step videoDuration s
    (deliver
       (Slider.onPanResponderMove (num := Slider.Binary64) screenWidth
          isStart (sliderProps videoDuration s) dx)).

(** The states after each event of a sequence, in order. *)
Fixpoint trace (videoDuration : float) (s : State) (es : list event)
  : list State :=
  match es with
  | [] => []
  | e :: es' =>
      let s' := fst (step videoDuration s e) in
      s' :: trace videoDuration s' es'
  end.

(** A number: not [NaN]. *)
Definition number (x : float) : Prop := PrimFloat.is_nan x = false.

End Trimmer64.

(** * Theorems *)

(** ** Facts about JavaScript numbers *)

Section NumberFacts.

Local Open Scope Q_scope.

Lemma ltb_lt (a b : Q) : JS.ltb a b = true <-> a < b.
Proof.
  unfold JS.ltb. rewrite negb_true_iff.
  split; intro H.
  - apply Qnot_le_lt. intro Hle. apply Qle_bool_iff in Hle. congruence.
  - destruct (Qle_bool b a) eqn:E; [|reflexivity].
    apply Qle_bool_iff in E. exfalso. apply (Qlt_not_le _ _ H E).
Qed.

Lemma ltb_ge (a b : Q) : JS.ltb a b = false <-> b <= a.
Proof.
  unfold JS.ltb. rewrite negb_false_iff. apply Qle_bool_iff.
Qed.

Lemma leb_le (a b : Q) : JS.leb a b = true <-> a <= b.
Proof. apply Qle_bool_iff. Qed.

Lemma leb_gt (a b : Q) : JS.leb a b = false <-> b < a.
Proof.
  unfold JS.leb. split; intro H.
  - apply Qnot_le_lt. intro Hle. apply Qle_bool_iff in Hle. congruence.
  - destruct (Qle_bool a b) eqn:E; [|reflexivity].
    apply Qle_bool_iff in E. exfalso. apply (Qlt_not_le _ _ H E).
Qed.

Lemma truthy_pos (a : Q) : 0 < a -> JS.truthy a = true.
Proof.
  intro H. unfold JS.truthy. rewrite negb_true_iff.
  destruct (Qeq_bool a 0) eqn:E; [|reflexivity].
  apply Qeq_bool_iff in E. rewrite E in H. discriminate H.
Qed.

(** [Math.max] and [Math.min] pick one of their arguments. *)
Lemma max_cases (a b : Q) :
  (a <= b /\ Qmax a b == b) \/ (b <= a /\ Qmax a b == a).
Proof.
  destruct (Q.max_spec a b) as [[H1 H2]|[H1 H2]]; [left|right]; split;
    auto using Qlt_le_weak.
Qed.

Lemma min_cases (a b : Q) :
  (a <= b /\ Qmin a b == a) \/ (b <= a /\ Qmin a b == b).
Proof.
  destruct (Q.min_spec a b) as [[H1 H2]|[H1 H2]]; [left|right]; split;
    auto using Qlt_le_weak.
Qed.

End NumberFacts.

(** Turn the boolean tests of a handler into order facts. *)
Ltac js_tests :=
  repeat match goal with
  | H : JS.ltb _ _ = true |- _ => apply ltb_lt in H
  | H : JS.ltb _ _ = false |- _ => apply ltb_ge in H
  | H : JS.leb _ _ = true |- _ => apply leb_le in H
  | H : JS.leb _ _ = false |- _ => apply leb_gt in H
  end.

(** Name a [Math.max] or [Math.min] and keep what is known of it. *)
Ltac name_max a b m :=
  let H := fresh "Hmax" in
  pose proof (max_cases a b) as H;
  set (m := Qmax a b) in *; clearbody m.

Ltac name_min a b m :=
  let H := fresh "Hmin" in
  pose proof (min_cases a b) as H;
  set (m := Qmin a b) in *; clearbody m.

(** ** The utility module *)

Section UtilsFacts.

Local Open Scope Q_scope.

(** C9. [validateTimeRange(startTime, endTime)] is true exactly when
    [startTime < endTime], [startTime >= 0] and [endTime > 0].  It has no
    minimum gap: the range from 0 to 500 ms is valid for it, although the
    same range is refused by the stage transition of the trim screen. *)
Theorem C9_validateTimeRange_no_gap :
  (forall startTime endTime : Q,
      Utils.validateTimeRange startTime endTime = true
      <-> (startTime < endTime /\ 0 <= startTime /\ 0 < endTime))
  /\ Utils.validateTimeRange 0 500 = true
  /\ 500 - 0 < 1000
  /\ snd (Trimmer.handleProceedToPlayer Samples.clip45
            (Samples.range 0 500))
     = Trimmer.Alerted "Error"
         "Trimmed duration must be at least 1 second".
Proof.
  split; [|split; [|split]].
  - intros a b. unfold Utils.validateTimeRange.
    rewrite !andb_true_iff, !ltb_lt, leb_le. tauto.
  - reflexivity.
  - reflexivity.
  - reflexivity.
Qed.

(** [getSuggestedTrimPoints] caps the end point at 30 seconds. *)
Lemma getSuggestedTrimPoints_spec (videoDuration : Q) :
  let t := Utils.getSuggestedTrimPoints videoDuration in
  Utils.tp_startTime t = 0
  /\ Utils.tp_endTime t = Qmin videoDuration 30000
  /\ (videoDuration <= 30000 -> Utils.tp_endTime t == videoDuration)
  /\ (30000 <= videoDuration -> Utils.tp_endTime t == 30000).
Proof.
  cbn. repeat split; try reflexivity.
  - intro H. apply Q.min_l. exact H.
  - intro H. apply Q.min_r. exact H.
Qed.

End UtilsFacts.

(** ** The trim screen *)

Section TrimmerFacts.

Local Open Scope Q_scope.

Import Trimmer.

Lemma mounted_loaded (p : Props) :
  JS.truthy_str (videoUri p) = true ->
  JS.truthy (videoDuration p) = true ->
  mounted p
  = {| startTime := 0; endTime := Qmin (videoDuration p) 30000;
       currentTime := 0; isPlaying := false; isLoading := false;
       videoStatus := None; videoRef := false |}.
Proof.
  intros Hu Hd. unfold mounted, mountEffect. rewrite Hu, Hd. reflexivity.
Qed.

(** C10. When the trim screen loads with a positive [videoDuration], the
    initial range is [startTime = 0] and
    [endTime = min(videoDuration, 30000)]; [getSuggestedTrimPoints]
    returns the same two values for every [videoDuration]. *)
Theorem C10_initial_range_capped (p : Props) :
  JS.truthy_str (videoUri p) = true ->
  0 < videoDuration p ->
  (isLoading (mounted p) = false
   /\ startTime (mounted p) = 0
   /\ endTime (mounted p) = Qmin (videoDuration p) 30000
   /\ (videoDuration p <= 30000 -> endTime (mounted p) == videoDuration p)
   /\ (30000 <= videoDuration p -> endTime (mounted p) == 30000))
  /\ (forall d : Q,
         Utils.tp_startTime (Utils.getSuggestedTrimPoints d) = 0
         /\ Utils.tp_endTime (Utils.getSuggestedTrimPoints d)
            = Qmin d 30000
         /\ (d <= 30000
             -> Utils.tp_endTime (Utils.getSuggestedTrimPoints d) == d)
         /\ (30000 <= d
             -> Utils.tp_endTime (Utils.getSuggestedTrimPoints d)
                == 30000)).
Proof.
  intros Hu Hd. split.
  - rewrite (mounted_loaded p Hu (truthy_pos _ Hd)). cbn.
    repeat split; try reflexivity.
    + intro H. apply Q.min_l. exact H.
    + intro H. apply Q.min_r. exact H.
  - intro d. apply getSuggestedTrimPoints_spec.
Qed.

Lemma C10_initial_range_capped_witness :
  endTime (mounted Samples.clip45) == 30000
  /\ Utils.tp_endTime (Utils.getSuggestedTrimPoints 45000) == 30000.
Proof.
  assert (Hu : JS.truthy_str (videoUri Samples.clip45) = true) by reflexivity.
  assert (Hd : 0 < videoDuration Samples.clip45) by reflexivity.
  destruct (C10_initial_range_capped Samples.clip45 Hu Hd)
    as [(_ & _ & _ & _ & Hcap) Hsug].
  split.
  - apply Hcap. discriminate.
  - apply (Hsug 45000). discriminate.
Defined.

(** The range a step leaves behind. *)
Lemma step_range (p : Props) (s : State) (e : event) :
  let s' := fst (step p s e) in
  match e with
  | StartTimeChange t =>
      startTime s' = Qmax 0 (Qmin (endTime s - 1000) t)
      /\ endTime s' = endTime s
  | EndTimeChange t =>
      startTime s' = startTime s
      /\ endTime s' = Qmax (startTime s + 1000) (Qmin (videoDuration p) t)
  | _ => startTime s' = startTime s /\ endTime s' = endTime s
  end.
Proof.
  destruct e; cbn.
  - unfold handleStartTimeChange.
    destruct (JS.ltb _ _); cbn; split; reflexivity.
  - unfold handleEndTimeChange.
    destruct (JS.ltb _ _); cbn; split; reflexivity.
  - unfold handleVideoStatusUpdate.
    destruct (isLoaded st); [destruct (JS.leb _ _)|]; cbn; split; reflexivity.
  - unfold handlePlayPause.
    destruct (videoRef s), ok; cbn; split; reflexivity.
  - unfold handlePreviewTrimmed.
    destruct (videoRef s), ok1, ok2; cbn; split; reflexivity.
  - unfold handleProceedToPlayer.
    destruct (negb _); [cbn; split; reflexivity|].
    destruct (JS.leb _ _); [cbn; split; reflexivity|].
    destruct (JS.ltb _ _); [cbn; split; reflexivity|].
    destruct (videoRef s && isPlaying s); cbn; split; reflexivity.
  - split; reflexivity.
Qed.

Lemma mounted_range (p : Props) :
  startTime (mounted p) = 0
  /\ (endTime (mounted p) = 0
      \/ endTime (mounted p) = Qmin (videoDuration p) 30000).
Proof.
  unfold mounted, mountEffect.
  destruct (negb _); [cbn; auto|].
  destruct (JS.truthy _); cbn; auto.
Qed.

(** The start handle never goes below zero. *)
Lemma reachable_start_nonneg {p : Props} {s : State} :
  reachable p s -> 0 <= startTime s.
Proof.
  induction 1 as [|s e _ IH].
  - destruct (mounted_range p) as [-> _]. apply Qle_refl.
  - pose proof (step_range p s e) as H. cbv zeta in H.
    destruct e; destruct H as [-> _]; try exact IH.
    apply Q.le_max_l.
Qed.

Lemma step_gap_ok (p : Props) (s : State) (e : event) :
  gap_ok s -> gap_ok (fst (step p s e)).
Proof.
  unfold gap_ok. intros [H0 Hg].
  pose proof (step_range p s e) as H. cbv zeta in H.
  destruct e; destruct H as [-> ->]; try (split; assumption).
  - name_min (endTime s - 1000) newStartTime m.
    name_max 0 m c. split; lra.
  - name_min (videoDuration p) newEndTime m.
    name_max (startTime s + 1000) m c. split; lra.
Qed.

Lemma trace_gap_ok (p : Props) (es : list event) :
  forall s, gap_ok s -> Forall gap_ok (trace p s es).
Proof.
  induction es as [|e es IH]; intros s H; cbn.
  - constructor.
  - constructor; [|apply IH]; apply step_gap_ok; exact H.
Qed.

(** The gap in exact arithmetic.  From every state of the trim screen in
    which the handles are at least 1000 ms apart, every sequence of
    updates keeps [endTime - startTime >= 1000] after each update; a
    request that would bring the handles closer is clamped to exactly
    1000 ms of distance.  This is what the two clamps are written for;
    the engine rounds the sum and the difference they take. *)
Lemma gap_invariant_exact (p : Props) (s : State) (es : list event) :
  reachable p s ->
  1000 <= endTime s - startTime s ->
  Forall (fun s' => 1000 <= endTime s' - startTime s') (trace p s es)
  /\ (forall t, endTime s - 1000 <= t ->
        startTime (fst (handleStartTimeChange s t)) == endTime s - 1000)
  /\ (forall t, t <= startTime s + 1000 ->
        endTime (fst (handleEndTimeChange p s t)) == startTime s + 1000).
Proof.
  intros Hr Hg.
  pose proof (reachable_start_nonneg Hr) as H0.
  assert (Hok : gap_ok s) by (split; [exact H0 | lra]).
  split; [|split].
  - eapply Forall_impl; [|apply trace_gap_ok; exact Hok].
    intros s' [_ H]. cbv beta. lra.
  - intros t Ht.
    destruct (step_range p s (StartTimeChange t)) as [E _].
    cbn in E. rewrite E.
    name_min (endTime s - 1000) t m. name_max 0 m c. lra.
  - intros t Ht.
    destruct (step_range p s (EndTimeChange t)) as [_ E].
    cbn in E. rewrite E.
    name_min (videoDuration p) t m.
    name_max (startTime s + 1000) m c. lra.
Qed.

Lemma mounted_domain_ok (p : Props) :
  1000 <= videoDuration p -> domain_ok p (mounted p).
Proof.
  intro Hd. unfold domain_ok.
  destruct (mounted_range p) as [-> [-> | ->]].
  - lra.
  - name_min (videoDuration p) 30000 m. lra.
Qed.

Lemma step_domain_ok (p : Props) (s : State) (e : event) :
  domain_ok p s -> domain_ok p (fst (step p s e)).
Proof.
  unfold domain_ok. intros (H0 & He & Hs).
  pose proof (step_range p s e) as H. cbv zeta in H.
  destruct e; destruct H as [-> ->]; try (repeat split; assumption).
  - name_min (endTime s - 1000) newStartTime m.
    name_max 0 m c. repeat split; lra.
  - name_min (videoDuration p) newEndTime m.
    name_max (startTime s + 1000) m c. repeat split; lra.
Qed.

Lemma reachable_domain_ok {p : Props} {s : State} :
  1000 <= videoDuration p -> reachable p s -> domain_ok p s.
Proof.
  intros Hd. induction 1 as [|s e _ IH].
  - apply mounted_domain_ok, Hd.
  - apply step_domain_ok, IH.
Qed.

Lemma trace_reachable (p : Props) (es : list event) :
  forall s, reachable p s -> Forall (reachable p) (trace p s es).
Proof.
  induction es as [|e es IH]; intros s H; cbn.
  - constructor.
  - constructor; [|apply IH]; apply reach_step, H.
Qed.

(** C4, as stated, fails on a clip shorter than one second: the end setter
    keeps the gap and leaves the video.  It also fails on a video of
    duration 0, in the arithmetic of the engine: the first move of the
    start handle makes the slider request [NaN], the start setter stores
    it, and [0 <= startTime] is false. *)
Lemma C4_short_clip_counterexample :
  (let s := fst (handleEndTimeChange Samples.clip05
                   (mounted Samples.clip05) 400) in
   reachable Samples.clip05 s
   /\ endTime s == 1000
   /\ ~ endTime s <= videoDuration Samples.clip05)
  /\ (let s := fst (Trimmer64.drag 390 true 10 0 (Trimmer64.mounted 0)) in
      PrimFloat.is_nan (Trimmer64.startTime s) = true
      /\ PrimFloat.leb 0 (Trimmer64.startTime s) = false).
Proof.
  cbv zeta. split; [split; [|split]|split].
  - exact (reach_step _ _ (EndTimeChange 400) (reach_mounted Samples.clip05)).
  - reflexivity.
  - vm_compute. intro H. apply H. reflexivity.
  - vm_compute. reflexivity.
  - vm_compute. reflexivity.
Qed.



End TrimmerFacts.

(** ** The playback screen *)

Section PlayerFacts.

Local Open Scope Q_scope.

Import Player.

(** The steady-state rule reads the state only through [isLooping] and
    [videoRef], and leaves both as they are. *)
Lemma steadyState_again (p : Props) (s : State) (st : status) :
  steadyState p (fst (steadyState p s st)) st = steadyState p s st.
Proof.
  destruct s, st as [l pos pl]. unfold steadyState. cbn.
  destruct (JS.leb (endTime p) (JS.or_zero pos)),
           (JS.ltb (JS.or_zero pos) (startTime p)),
           pl, isLooping0; cbn; reflexivity.
Qed.

Lemma steadyState_initialized (p : Props) (s : State) (st : status) :
  isInitialized (fst (steadyState p s st)) = isInitialized s.
Proof.
  destruct s, st as [l pos pl]. unfold steadyState. cbn.
  destruct (JS.leb (endTime p) (JS.or_zero pos)),
           (JS.ltb (JS.or_zero pos) (startTime p)),
           pl, isLooping0; cbn; reflexivity.
Qed.

(** On a proper range a notification hits at most one boundary. *)
Lemma steadyState_one_command (p : Props) (s : State) (st : status) :
  startTime p < endTime p ->
  (List.length (snd (steadyState p s st)) <= 1)%nat.
Proof.
  intro Hr. destruct s, st as [l pos pl]. unfold steadyState. cbn.
  destruct (JS.leb (endTime p) (JS.or_zero pos)) eqn:E1,
           (JS.ltb (JS.or_zero pos) (startTime p)) eqn:E2.
  1: { js_tests. exfalso. lra. }
  all: destruct pl, isLooping0, videoRef0; cbn; lia.
Qed.

(** C8. On an initialised playback screen the update rule is idempotent
    on identical notifications: a second application of
    [handleVideoStatusUpdate] to the same status leaves the state of the
    first unchanged and issues the same commands; on a proper range that
    is at most one command. *)
Theorem C8_status_update_idempotent (p : Props) (s : State) (st : status) :
  isInitialized s = true ->
  let once := handleVideoStatusUpdate p s st in
  let twice := handleVideoStatusUpdate p (fst once) st in
  fst twice = fst once
  /\ snd twice = snd once
  /\ (startTime p < endTime p -> (List.length (snd once) <= 1)%nat).
Proof.
  intro Hi. cbv zeta. unfold handleVideoStatusUpdate.
  destruct (isLoaded st); cbn [negb andb].
  - rewrite Hi. cbn [negb andb].
    rewrite steadyState_initialized, Hi, steadyState_again.
    repeat split. apply steadyState_one_command.
  - repeat split. intros _. cbn. lia.
Qed.

Lemma C8_status_update_idempotent_witness :
  let once :=
    handleVideoStatusUpdate Samples.loop25 (Samples.ready Samples.loop25)
      (Samples.playingAt 5000) in
  snd once = [setPositionAsync 2000]
  /\ handleVideoStatusUpdate Samples.loop25 (fst once)
       (Samples.playingAt 5000) = once.
Proof.
  cbv zeta.
  destruct (C8_status_update_idempotent Samples.loop25
              (Samples.ready Samples.loop25) (Samples.playingAt 5000)
              eq_refl) as (H1 & H2 & _).
  split; [reflexivity|].
  apply injective_projections; assumption.
Defined.

(** C1, as the code has it.  On the range from 2000 to 5000 ms, looping
    and initialised, the notifications 1000, 3000, 5000, 5200 (playing)
    produce a seek to 2000, nothing, a seek to 2000, and again a seek to
    2000: there is no filter for stale notifications, every playing
    position at or past the end loops.  The recorded position is 2000
    after each boundary hit and 3000 after the notification inside the
    range. *)
Theorem C1_loop_scenario (p : Props) (s : State) :
  startTime p = 2000 -> endTime p = 5000 ->
  isInitialized s = true -> isLooping s = true -> videoRef s = true ->
  feed p s Samples.loopScenario
  = [([setPositionAsync 2000], 2000);
     ([], 3000);
     ([setPositionAsync 2000], 2000);
     ([setPositionAsync 2000], 2000)].
Proof.
  intros Hs He Hi Hl Hr.
  destruct s; cbn in Hi, Hl, Hr; subst.
  unfold Samples.loopScenario, feed, handleVideoStatusUpdate, steadyState.
  cbn. rewrite Hs, He. reflexivity.
Qed.

Lemma C1_loop_scenario_witness :
  map fst (feed Samples.loop25 (Samples.ready Samples.loop25) Samples.loopScenario)
  = [[setPositionAsync 2000]; []; [setPositionAsync 2000];
     [setPositionAsync 2000]].
Proof.
  rewrite (C1_loop_scenario Samples.loop25 (Samples.ready Samples.loop25)
             eq_refl eq_refl eq_refl eq_refl eq_refl).
  reflexivity.
Defined.

(** C1, as stated, fails at the last notification: 5200 is not ignored. *)
Lemma C1_stale_notification_counterexample :
  isInitialized (Samples.ready Samples.loop25) = true
  /\ isLooping (Samples.ready Samples.loop25) = true
  /\ map fst
       (feed Samples.loop25 (Samples.ready Samples.loop25) Samples.loopScenario)
     <> [[setPositionAsync 2000]; []; [setPositionAsync 2000]; []].
Proof.
  split; [reflexivity|]. split; [reflexivity|].
  vm_compute. intro H. discriminate H.
Qed.

Lemma issuedBy_app (o : origin) (l1 l2 : log) :
  issuedBy o (l1 ++ l2) = issuedBy o l1 ++ issuedBy o l2.
Proof.
  unfold issuedBy. rewrite filter_app, map_app. reflexivity.
Qed.

Lemma issuedBy_tagged (o o' : origin) (cs : list command) :
  issuedBy o (tagged o' cs) = if origin_eqb o' o then cs else [].
Proof.
  unfold issuedBy, tagged.
  induction cs as [|c cs IH]; cbn.
  - destruct (origin_eqb o' o); reflexivity.
  - destruct (origin_eqb o' o) eqn:E; cbn; rewrite IH; reflexivity.
Qed.

Lemma mounted_load_inv (p : Props) : load_inv p (mounted p) [].
Proof.
  unfold mounted, mountEffect, load_inv.
  destruct (negb _); cbn; repeat split; reflexivity.
Qed.

(** A step, read through the handler it runs. *)
Lemma step_handler (p : Props) (s : State) (e : event) :
  step p s e
  = match e with
    | StatusUpdate st =>
        (fst (handleVideoStatusUpdate p s st),
         tagged BySteady (snd (handleVideoStatusUpdate p s st)))
    | Settled ok =>
        (fst (resumeInitialization p s ok),
         tagged ByInit (snd (resumeInitialization p s ok)))
    | PlayPause ok1 ok2 =>
        (fst (handlePlayPause p s ok1 ok2),
         tagged ByUser (snd (handlePlayPause p s ok1 ok2)))
    | SpeedChange =>
        (fst (handleSpeedChange s), tagged ByUser (snd (handleSpeedChange s)))
    | ToggleLoop => (handleToggleLoop s, [])
    | Restart ok1 ok2 =>
        (fst (handleRestart p s ok1 ok2),
         tagged ByUser (snd (handleRestart p s ok1 ok2)))
    | Leave => (fst (pauseOnLeave s), tagged ByUser (snd (pauseOnLeave s)))
    | RefChange b => (setVideoRef b s, [])
    end.
Proof.
  destruct e; cbn; try reflexivity.
  - destruct (handleVideoStatusUpdate p s st); reflexivity.
  - destruct (resumeInitialization p s ok); reflexivity.
  - destruct (handlePlayPause p s ok1 ok2); reflexivity.
  - destruct (handleSpeedChange s); reflexivity.
  - destruct (handleRestart p s ok1 ok2); reflexivity.
  - destruct (pauseOnLeave s); reflexivity.
Qed.

(** The handlers behind the guard [!videoLoaded || !isInitialized] and the
    pause on leaving do nothing on a screen that is not initialised and
    not playing. *)
Lemma user_handlers_gated (p : Props) (s : State) :
  isInitialized s = false -> isPlaying s = false ->
  (forall ok1 ok2, handlePlayPause p s ok1 ok2 = (s, []))
  /\ handleSpeedChange s = (s, [])
  /\ (forall ok1 ok2, handleRestart p s ok1 ok2 = (s, []))
  /\ pauseOnLeave s = (s, []).
Proof.
  intros Hi Hp.
  unfold handlePlayPause, handleSpeedChange, handleRestart, pauseOnLeave.
  rewrite Hi, Hp. cbn [negb]. rewrite !orb_true_r, andb_false_r.
  repeat split.
Qed.

(** On an initialised screen the handlers leave the completed
    initialisation alone. *)
Lemma handlers_keep_task (p : Props) (s : State) (e : event) :
  isInitialized s = true -> initTask s = Done ->
  initTask (fst (step p s e)) = Done
  /\ initializationAttempted (fst (step p s e)) = initializationAttempted s
  /\ isInitialized (fst (step p s e)) = true
  /\ issuedBy ByInit (snd (step p s e)) = [].
Proof.
  intros Hi Ht. rewrite step_handler.
  destruct e as [st|ok|ok1 ok2| | |ok1 ok2| |b]; cbn [fst snd].
  - unfold handleVideoStatusUpdate. rewrite Hi.
    destruct (isLoaded st); cbn [negb andb fst snd].
    + rewrite issuedBy_tagged, steadyState_initialized. cbn.
      unfold steadyState.
      destruct (JS.leb _ _ && _), (JS.ltb _ _ && _), (isLooping s);
        cbn; auto.
    + rewrite issuedBy_tagged. cbn. auto.
  - unfold resumeInitialization. rewrite Ht. cbn. auto.
  - unfold handlePlayPause. rewrite issuedBy_tagged. cbn [origin_eqb].
    repeat match goal with
    | |- context [if ?b then _ else _] => destruct b; cbn
    end; auto.
  - unfold handleSpeedChange. rewrite issuedBy_tagged. cbn [origin_eqb].
    destruct (_ || _); cbn; auto.
  - cbn. auto.
  - unfold handleRestart. rewrite issuedBy_tagged. cbn [origin_eqb].
    repeat match goal with
    | |- context [if ?b then _ else _] => destruct b; cbn
    end; auto.
  - unfold pauseOnLeave. rewrite issuedBy_tagged. cbn [origin_eqb].
    destruct (_ && _); cbn; auto.
  - cbn. auto.
Qed.

(** Every event keeps the invariant of the load. *)
Lemma step_load_inv (p : Props) (s : State) (l : log) (e : event) :
  load_inv p s l ->
  load_inv p (fst (step p s e)) (l ++ snd (step p s e)).
Proof.
  unfold load_inv. intros (Ha & Hi & Hs & Hq).
  rewrite !issuedBy_app.
  destruct (isInitialized s) eqn:Hini.
  - (* initialised: the task is done and stays so *)
    assert (Ht : initTask s = Done)
      by (destruct (initTask s); cbn in Hi; congruence).
    destruct (handlers_keep_task p s e Hini Ht) as (E1 & E2 & E3 & E4).
    rewrite E1, E2, E3, E4, app_nil_r. rewrite Ht in Ha, Hs.
    split; [exact Ha|]. split; [reflexivity|]. split; [exact Hs|].
    discriminate.
  - (* not initialised *)
    destruct (Hq eq_refl) as (Hp & Hst & Hus).
    destruct (user_handlers_gated p s Hini Hp) as (G1 & G2 & G3 & G4).
    rewrite step_handler.
    destruct e as [st|ok|ok1 ok2| | |ok1 ok2| |b]; cbn [fst snd];
      rewrite ?G1, ?G2, ?G3, ?G4; cbn [fst snd tagged map];
      rewrite ?app_nil_r.
    all: try (rewrite Hini; repeat split; auto; fail).
    + (* a status notification: at most the one-shot start *)
      unfold handleVideoStatusUpdate. rewrite Hini.
      destruct (isLoaded st); cbn [negb andb fst snd tagged map];
        rewrite ?app_nil_r; [|rewrite Hini; auto].
      destruct (initializationAttempted s) eqn:Hatt;
        cbn [negb fst snd tagged map]; rewrite ?app_nil_r;
        [rewrite Hini, Hatt; auto|].
      unfold initializeVideo. rewrite Hatt, Hini.
      assert (Ht : initTask s = NotStarted)
        by (destruct (initTask s); cbn in Ha; congruence).
      rewrite Ht in Hs.
      destruct (videoRef s); cbn; [|rewrite Hini, Hatt, Ht; auto].
      repeat split; auto.
    + (* a promise of the initialisation settles *)
      unfold resumeInitialization.
      destruct (initTask s) eqn:Ht; cbn in Hs, Ha.
      * cbn. rewrite !app_nil_r, Ht, Hini. repeat split; auto.
      * destruct (videoRef s); cbn; rewrite ?issuedBy_tagged; cbn;
          rewrite ?app_nil_r, Hs, Hini; repeat split; auto.
      * destruct ok; [destruct (JS.ltb 0 (startTime p)) eqn:E;
                      [destruct (videoRef s)|]|];
          cbn; rewrite ?issuedBy_tagged; cbn;
          rewrite ?app_nil_r, Hs, ?Hini; unfold initCommands; rewrite ?E;
          repeat split; auto; discriminate.
      * destruct Hs as [Hs Hpos].
        destruct ok; cbn; rewrite ?issuedBy_tagged; cbn;
          rewrite ?app_nil_r, Hs, Hini; repeat split; auto.
      * destruct Hs as [Hs Hpos].
        cbn; rewrite ?issuedBy_tagged; cbn.
        rewrite ?app_nil_r, Hs. unfold initCommands. rewrite Hpos.
        repeat split; auto; discriminate.
      * cbn in Hi. discriminate Hi.
      * cbn. rewrite !app_nil_r, Ht, Hini. repeat split; auto.
    + (* the loop toggle *)
      cbn. rewrite Hini. repeat split; auto.
    + (* the ref *)
      cbn. rewrite Hini. repeat split; auto.
Qed.

Lemma run_load_inv (p : Props) (es : list event) :
  forall s l, load_inv p s l ->
  load_inv p (fst (run p s es)) (l ++ snd (run p s es)).
Proof.
  induction es as [|e es IH]; intros s l H; cbn.
  - rewrite app_nil_r. exact H.
  - pose proof (step_load_inv p s l e H) as H1.
    destruct (step p s e) as [s1 l1]. cbn in H1.
    specialize (IH s1 (l ++ l1) H1).
    destruct (run p s1 es) as [s2 l2]. cbn in *.
    rewrite app_assoc. exact IH.
Qed.

(** The initialisation never sends more than one pause and one seek. *)
Lemma sent_at_most_once (p : Props) (t : init_stage) (cs : list command) :
  sent p t cs -> (count isPause cs <= 1)%nat /\ (count isSeek cs <= 1)%nat.
Proof.
  unfold sent, initCommands, count.
  destruct t; intros H;
    repeat match goal with
    | H : _ /\ _ |- _ => destruct H
    | H : _ \/ _ |- _ => destruct H
    end; subst; try destruct (JS.ltb 0 (startTime p)); cbn; lia.
Qed.

(** C2, as the code has it.  While [isInitialized] is false a status
    notification makes [handleVideoStatusUpdate] send nothing, and over a
    whole load nothing is sent by the steady-state rule before the
    initialisation completes.  However many "loaded" notifications
    arrive, the initialisation sends at most one [pauseAsync] and at most
    one [setPositionAsync]; when it completes it has sent exactly one
    [pauseAsync], followed by exactly one [setPositionAsync(startTime)]
    if [startTime > 0] and by no seek at all if [startTime] is 0. *)
Theorem C2_initialization_gating (p : Props) (es : list event) :
  (forall s st, isInitialized s = false ->
                snd (handleVideoStatusUpdate p s st) = [])
  /\ (isInitialized (fst (run p (mounted p) es)) = false ->
      issuedBy BySteady (snd (run p (mounted p) es)) = [])
  /\ (count isPause (issuedBy ByInit (snd (run p (mounted p) es))) <= 1)%nat
  /\ (count isSeek (issuedBy ByInit (snd (run p (mounted p) es))) <= 1)%nat
  /\ (isInitialized (fst (run p (mounted p) es)) = true ->
      issuedBy ByInit (snd (run p (mounted p) es))
      = pauseAsync
        :: (if JS.ltb 0 (startTime p)
            then [setPositionAsync (startTime p)] else [])).
Proof.
  pose proof (run_load_inv p es (mounted p) [] (mounted_load_inv p)) as H.
  cbn [app] in H. destruct H as (Ha & Hi & Hs & Hq).
  split; [|split; [|split; [|split]]].
  - intros s st Hn. unfold handleVideoStatusUpdate. rewrite Hn.
    destruct (isLoaded st); cbn [negb andb]; [|reflexivity].
    destruct (negb (initializationAttempted s)); reflexivity.
  - intro Hn. apply Hq, Hn.
  - exact (proj1 (sent_at_most_once _ _ _ Hs)).
  - exact (proj2 (sent_at_most_once _ _ _ Hs)).
  - intro Hy. rewrite Hy in Hi.
    destruct (initTask (fst (run p (mounted p) es)));
      cbn in Hi; try discriminate Hi.
    exact Hs.
Qed.

Lemma C2_initialization_gating_witness :
  isInitialized (Samples.ready Samples.loop25) = true
  /\ issuedBy ByInit
       (snd (run Samples.loop25 (mounted Samples.loop25) Samples.load))
     = [pauseAsync; setPositionAsync 2000].
Proof.
  split; [reflexivity|].
  destruct (C2_initialization_gating Samples.loop25 Samples.load)
    as (_ & _ & _ & _ & H).
  exact (H eq_refl).
Defined.

(** C2, as stated, fails for a range that starts at 0: the load completes
    after one [pauseAsync] and no [setPositionAsync]. *)
Lemma C2_start_zero_counterexample :
  isInitialized (Samples.ready Samples.fromZero) = true
  /\ issuedBy ByInit
       (snd (run Samples.fromZero (mounted Samples.fromZero) Samples.load))
     = [pauseAsync]
  /\ count isSeek
       (issuedBy ByInit
          (snd (run Samples.fromZero (mounted Samples.fromZero)
                  Samples.load))) = 0%nat.
Proof.
  repeat split.
Qed.

End PlayerFacts.

(** ** The timeline slider in binary64 *)

Section SliderBinary64.

Import Slider.

Local Open Scope float_scope.

(** Neither a number nor zero: [NaN] or an infinity. *)
Definition nonfinite (x : float) : Prop :=
  Prim2SF x = S754_nan \/ exists s, Prim2SF x = S754_infinity s.

Lemma nan_is_nan (x : float) :
  Prim2SF x = S754_nan -> PrimFloat.is_nan x = true.
Proof.
  intro H. unfold PrimFloat.is_nan. rewrite eqb_spec, H. reflexivity.
Qed.

Lemma nonfinite_not_finite (x : float) :
  nonfinite x -> PrimFloat.is_finite x = false.
Proof.
  unfold PrimFloat.is_finite. intros [H | [s H]].
  - rewrite (nan_is_nan _ H). reflexivity.
  - unfold PrimFloat.is_infinity.
    rewrite eqb_spec, abs_spec, H. cbn.
    rewrite orb_true_r. reflexivity.
Qed.

(** Division by zero never gives a number, and gives [NaN] for [0 / 0]. *)
Lemma div_zero_nonfinite (t d : float) (s : bool) :
  Prim2SF d = S754_zero s -> nonfinite (t / d).
Proof.
  intro Hd. unfold nonfinite. rewrite div_spec, Hd.
  destruct (Prim2SF t); cbn; eauto.
Qed.

Lemma mul_nonfinite (x w : float) : nonfinite x -> nonfinite (x * w).
Proof.
  unfold nonfinite. rewrite mul_spec.
  intros [H | [s H]]; rewrite H; destruct (Prim2SF w); cbn; eauto.
Qed.

(** [NaN] is contagious. *)
Lemma mul_nan_l (x y : float) :
  Prim2SF x = S754_nan -> Prim2SF (x * y) = S754_nan.
Proof. intro H. rewrite mul_spec, H. reflexivity. Qed.

Lemma div_nan_l (x y : float) :
  Prim2SF x = S754_nan -> Prim2SF (x / y) = S754_nan.
Proof. intro H. rewrite div_spec, H. reflexivity. Qed.

Lemma add_nan_l (x y : float) :
  Prim2SF x = S754_nan -> Prim2SF (x + y) = S754_nan.
Proof. intro H. rewrite add_spec, H. reflexivity. Qed.

Lemma sub_nan_l (x y : float) :
  Prim2SF x = S754_nan -> Prim2SF (x - y) = S754_nan.
Proof. intro H. rewrite sub_spec, H. reflexivity. Qed.

Lemma float_max_nan_r (x y : float) :
  Prim2SF y = S754_nan -> Prim2SF (float_max x y) = S754_nan.
Proof.
  intro H. unfold float_max. rewrite (nan_is_nan _ H), orb_true_r.
  reflexivity.
Qed.

Lemma float_min_nan_r (x y : float) :
  Prim2SF y = S754_nan -> Prim2SF (float_min x y) = S754_nan.
Proof.
  intro H. unfold float_min. rewrite (nan_is_nan _ H), orb_true_r.
  reflexivity.
Qed.

(** The position of a time 0 on a duration 0 is [NaN], on any screen. *)
Lemma zero_over_zero (w d : float) (s : bool) :
  Prim2SF d = S754_zero s -> Prim2SF ((0 / d) * w) = S754_nan.
Proof.
  intro Hd. apply mul_nan_l. rewrite div_spec, Hd. reflexivity.
Qed.

(** [d == 0]: the duration is 0 or -0. *)
Lemma is_zero_spec (d : float) :
  PrimFloat.is_zero d = true -> exists s, Prim2SF d = S754_zero s.
Proof.
  unfold PrimFloat.is_zero. rewrite eqb_spec.
  change (Prim2SF PrimFloat.zero) with (S754_zero false).
  destruct (Prim2SF d) as [s|s| |s m e]; cbn; try discriminate.
  - eauto.
  - destruct s; discriminate.
  - destruct s; discriminate.
Qed.

(** [NaN] or the positive infinity: what a time that is not negative
    gives when it is divided by a duration of 0. *)
Definition up (x : float) : Prop :=
  Prim2SF x = S754_nan \/ Prim2SF x = S754_infinity false.

Lemma is_nan_spec (x : float) :
  PrimFloat.is_nan x
  = match Prim2SF x with S754_nan => true | _ => false end.
Proof.
  unfold PrimFloat.is_nan. rewrite eqb_spec. unfold SFeqb.
  destruct (Prim2SF x) as [s|s| |s m e]; cbn; try reflexivity.
  - destruct s; reflexivity.
  - rewrite Z.compare_refl, Pos.compare_cont_refl.
    destruct s; reflexivity.
Qed.

Lemma div_zero_up (t : float) : (t <? 0) = false -> up (t / 0).
Proof.
  unfold up. rewrite ltb_spec, div_spec.
  change (Prim2SF 0) with (S754_zero false).
  destruct (Prim2SF t) as [s|s| |s m e]; cbn; auto;
    destruct s; cbn; auto; discriminate.
Qed.

Lemma mul_up (x w : float) : up x -> (0 <? w) = true -> up (x * w).
Proof.
  unfold up. rewrite ltb_spec, mul_spec.
  change (Prim2SF 0) with (S754_zero false).
  intros [H|H]; rewrite H; [auto|].
  destruct (Prim2SF w) as [s|s| |s m e]; cbn; try discriminate;
    destruct s; cbn; auto; discriminate.
Qed.

Lemma add_up (x y : float) : up x -> up (x + y).
Proof.
  unfold up. rewrite add_spec.
  intros [H|H]; rewrite H; [auto|].
  destruct (Prim2SF y) as [s|s| |s m e]; cbn; auto.
  destruct s; auto.
Qed.

Lemma sub_up (x y : float) : up x -> up (x - y).
Proof.
  unfold up. rewrite sub_spec.
  intros [H|H]; rewrite H; [auto|].
  destruct (Prim2SF y) as [s|s| |s m e]; cbn; auto.
  destruct s; auto.
Qed.

Lemma float_min_up (a b : float) : up a -> up b -> up (float_min a b).
Proof.
  intros Ha Hb. unfold float_min.
  destruct (PrimFloat.is_nan a || PrimFloat.is_nan b)%bool;
    [left; reflexivity|].
  destruct (a <? b); [exact Ha|].
  destruct (b <? a); [exact Hb|].
  destruct (PrimFloat.get_sign a); assumption.
Qed.

Lemma float_max_zero_up (c : float) : up c -> up (float_max 0 c).
Proof.
  intros [H|H]; [left; apply float_max_nan_r, H|].
  right. unfold float_max.
  rewrite (is_nan_spec c), H, ltb_spec, H. exact H.
Qed.

Lemma float_max_up_l (a x : float) : up a -> up (float_max a x).
Proof.
  intros [H|H]; unfold float_max.
  - rewrite (nan_is_nan _ H). left. reflexivity.
  - destruct (PrimFloat.is_nan a || PrimFloat.is_nan x)%bool;
      [left; reflexivity|].
    assert (E : (a <? x) = false).
    { rewrite ltb_spec, H.
      destruct (Prim2SF x) as [s|s| |s m e]; try reflexivity.
      destruct s; reflexivity. }
    rewrite E.
    destruct (x <? a); [right; exact H|].
    assert (G : PrimFloat.get_sign a = false).
    { unfold PrimFloat.get_sign, PrimFloat.is_zero.
      rewrite eqb_spec, H.
      change (Prim2SF PrimFloat.zero) with (S754_zero false). cbn.
      rewrite ltb_spec, H. reflexivity. }
    rewrite G. right. exact H.
Qed.

Lemma up_div_nonfinite (c w : float) : up c -> nonfinite (c / w).
Proof.
  unfold nonfinite. rewrite div_spec.
  intros [H|H]; rewrite H; [auto|].
  destruct (Prim2SF w) as [s|s| |s m e]; cbn; eauto.
Qed.

Lemma nonfinite_mul_zero (x : float) :
  nonfinite x -> Prim2SF (x * 0) = S754_nan.
Proof.
  rewrite mul_spec. change (Prim2SF 0) with (S754_zero false).
  intros [H|[s H]]; rewrite H; reflexivity.
Qed.

(** On a duration of 0 and a track of positive width, a time that is not
    negative is drawn at [NaN] or at the positive infinity. *)
Lemma position_up (w t : float) :
  (0 <? w) = true -> (t <? 0) = false -> up ((t / 0) * w).
Proof. intros Hw Ht. apply mul_up; [apply div_zero_up, Ht|exact Hw]. Qed.

(** C6, as the code has it.  The slider has no special case for
    [duration == 0] (a duration of 0 or -0): every handle and
    current-time position is [time / 0 * SLIDER_WIDTH], which is never a
    finite number and is [NaN] for a time of 0; the pan responders still
    claim every gesture and a move still calls back, with [NaN]: on
    every screen when the two handle times are 0, as they are when the
    trim screen loads, and, for the duration 0 itself, on every track of
    positive width for handle times that are not negative (they may be
    [NaN], as they are after such a move), whatever the distance of the
    move; only the pixel positions of the time markers, which do not
    involve the duration, are unaffected. *)
Theorem C6_degenerate_duration (screenWidth : float) (p : Props float) :
  PrimFloat.is_zero (duration p) = true ->
  (PrimFloat.is_finite (startPosition screenWidth p) = false
   /\ PrimFloat.is_finite (endPosition screenWidth p) = false
   /\ PrimFloat.is_finite (currentPosition screenWidth p) = false)
  /\ (startTime p = 0 ->
      PrimFloat.is_nan (startPosition screenWidth p) = true)
  /\ (endTime p = 0 ->
      PrimFloat.is_nan (endPosition screenWidth p) = true)
  /\ (currentTime p = 0 ->
      PrimFloat.is_nan (currentPosition screenWidth p) = true)
  /\ onStartShouldSetPanResponder p = true
  /\ onMoveShouldSetPanResponder p = true
  /\ (startTime p = 0 -> endTime p = 0 ->
      forall dx,
        (exists t, onPanResponderMove screenWidth true p dx
                   = onStartTimeChange t /\ PrimFloat.is_nan t = true)
        /\ (exists t, onPanResponderMove screenWidth false p dx
                      = onEndTimeChange t /\ PrimFloat.is_nan t = true))
  /\ (duration p = 0 ->
      (0 <? SLIDER_WIDTH screenWidth) = true ->
      (startTime p <? 0) = false ->
      forall dx,
        ((endTime p <? 0) = false ->
         exists t, onPanResponderMove screenWidth true p dx
                   = onStartTimeChange t /\ PrimFloat.is_nan t = true)
        /\ (exists t, onPanResponderMove screenWidth false p dx
                      = onEndTimeChange t /\ PrimFloat.is_nan t = true))
  /\ (forall i p', fst (timeMarker screenWidth p i)
                   = fst (timeMarker screenWidth p' i)).
Proof.
  intro Hz. destruct (is_zero_spec _ Hz) as [sd Hd].
  unfold startPosition, endPosition, currentPosition. cbn [n_div n_mul Binary64].
  split; [|split; [|split; [|split; [|split; [|split; [|split; [|split]]]]]]].
  - repeat split; apply nonfinite_not_finite, mul_nonfinite,
      (div_zero_nonfinite _ _ _ Hd).
  - intros ->. apply nan_is_nan, (zero_over_zero _ _ _ Hd).
  - intros ->. apply nan_is_nan, (zero_over_zero _ _ _ Hd).
  - intros ->. apply nan_is_nan, (zero_over_zero _ _ _ Hd).
  - reflexivity.
  - reflexivity.
  - intros Hs He dx.
    unfold onPanResponderMove, newTime, startPosition, endPosition.
    cbn [n_div n_mul n_add n_sub n_max n_min lit Binary64].
    rewrite Hs, He.
    split; eexists; (split; [reflexivity|]); apply nan_is_nan.
    + apply float_max_nan_r, mul_nan_l, div_nan_l, float_max_nan_r,
        float_min_nan_r, add_nan_l, (zero_over_zero _ _ _ Hd).
    + apply float_min_nan_r, mul_nan_l, div_nan_l, float_max_nan_r,
        float_min_nan_r, add_nan_l, (zero_over_zero _ _ _ Hd).
  - intros Hd0 Hw Hs dx.
    unfold onPanResponderMove, newTime, startPosition, endPosition.
    cbn [n_div n_mul n_add n_sub n_max n_min lit Binary64].
    rewrite Hd0.
    pose proof (position_up _ _ Hw Hs) as Us.
    split; [intro He; pose proof (position_up _ _ Hw He) as Ue|];
      eexists; (split; [reflexivity|]); apply nan_is_nan.
    + apply float_max_nan_r, nonfinite_mul_zero, up_div_nonfinite,
        float_max_zero_up, float_min_up; [apply sub_up, Ue|apply add_up, Us].
    + apply float_min_nan_r, nonfinite_mul_zero, up_div_nonfinite,
        float_max_up_l, add_up, Us.
  - reflexivity.
Qed.

Lemma C6_degenerate_duration_witness :
  PrimFloat.is_nan (startPosition Samples.width390 Samples.degenerate) = true
  /\ PrimFloat.is_nan (endPosition Samples.width390 Samples.degenerate)
     = true
  /\ exists t,
       onPanResponderMove Samples.width390 false
         {| duration := 0; startTime := 1500; endTime := PrimFloat.nan;
            currentTime := 0 |} (-20)
       = onEndTimeChange t
       /\ PrimFloat.is_nan t = true.
Proof.
  destruct (C6_degenerate_duration Samples.width390 Samples.degenerate
              eq_refl) as (_ & Hs & He & _).
  split; [apply Hs; reflexivity|]. split; [apply He; reflexivity|].
  destruct (C6_degenerate_duration Samples.width390
              {| duration := 0; startTime := 1500; endTime := PrimFloat.nan;
                 currentTime := 0 |} eq_refl)
    as (_ & _ & _ & _ & _ & _ & _ & Hm & _).
  destruct (Hm eq_refl eq_refl eq_refl (-20)) as [_ H]. exact H.
Defined.

(** C6, as stated, fails on the slider the trim screen renders for a
    duration of 0: both handle positions and the position of the current
    time indicator, which is drawn, are [NaN]; the start handle accepts
    the touch, and dragging it by 10 points reports a start time of
    [NaN]. *)
Lemma C6_nan_positions_counterexample :
  PrimFloat.is_nan (startPosition Samples.width390 Samples.degenerate) = true
  /\ PrimFloat.is_nan (endPosition Samples.width390 Samples.degenerate)
     = true
  /\ (exists x, currentTimeIndicator Samples.width390 Samples.degenerate
                = Some x /\ PrimFloat.is_nan x = true)
  /\ onStartShouldSetPanResponder Samples.degenerate = true
  /\ (exists t, onPanResponderMove Samples.width390 true Samples.degenerate
                  10 = onStartTimeChange t
                /\ PrimFloat.is_nan t = true).
Proof.
  split; [reflexivity|]. split; [reflexivity|].
  split; [eexists; split; reflexivity|].
  split; [reflexivity|].
  eexists; split; reflexivity.
Qed.

End SliderBinary64.

(** ** Rounding in binary64 *)

Section IntegerShifts.

Local Open Scope Z_scope.

(** ** Bits of a mantissa *)

Lemma digits2_pos_bounds (p : positive) :
  2 ^ (Zpos (digits2_pos p) - 1) <= Zpos p < 2 ^ Zpos (digits2_pos p).
Proof.
  induction p as [p IH|p IH|]; cbn [digits2_pos].
  - rewrite Pos2Z.inj_succ.
    replace (Z.succ (Zpos (digits2_pos p)) - 1) with
      (Z.succ (Zpos (digits2_pos p) - 1)) by lia.
    rewrite !Z.pow_succ_r by lia. lia.
  - rewrite Pos2Z.inj_succ.
    replace (Z.succ (Zpos (digits2_pos p)) - 1) with
      (Z.succ (Zpos (digits2_pos p) - 1)) by lia.
    rewrite !Z.pow_succ_r by lia. lia.
  - cbn. lia.
Qed.

Lemma shr_1_m (r : shr_record) :
  0 <= shr_m r -> shr_m (shr_1 r) = shr_m r / 2.
Proof.
  intro H. rewrite <- Z.div2_div.
  destruct r as [m b s]. cbn in *.
  destruct m as [|[p|p|]|p]; try reflexivity; lia.
Qed.

Lemma iter_shr_1_m (p : positive) :
  forall r, 0 <= shr_m r ->
  shr_m (iter_pos shr_1 p r) = shr_m r / 2 ^ Zpos p.
Proof.
  induction p as [p IH|p IH|]; intros r H; cbn [iter_pos].
  - assert (H1 : 0 <= shr_m (shr_1 r)).
    { rewrite shr_1_m by exact H. apply Z.div_pos; lia. }
    assert (H2 : 0 <= shr_m (iter_pos shr_1 p (shr_1 r))).
    { rewrite IH by exact H1. apply Z.div_pos; [exact H1|].
      apply Z.pow_pos_nonneg; lia. }
    rewrite IH by exact H2. rewrite IH by exact H1.
    rewrite shr_1_m by exact H.
    rewrite !Z.div_div by (try apply Z.pow_pos_nonneg; lia).
    f_equal.
    replace (Zpos p~1) with (1 + (Zpos p + Zpos p)) by lia.
    rewrite !Z.pow_add_r, Z.pow_1_r by lia. lia.
  - assert (H2 : 0 <= shr_m (iter_pos shr_1 p r)).
    { rewrite IH by exact H. apply Z.div_pos; [exact H|].
      apply Z.pow_pos_nonneg; lia. }
    rewrite IH by exact H2. rewrite IH by exact H.
    rewrite !Z.div_div by (try apply Z.pow_pos_nonneg; lia).
    f_equal.
    replace (Zpos p~0) with (Zpos p + Zpos p) by lia.
    rewrite !Z.pow_add_r by lia. lia.
  - rewrite shr_1_m by exact H. reflexivity.
Qed.

Lemma shr_record_of_loc_m (m : Z) (l : location) :
  shr_m (shr_record_of_loc m l) = m.
Proof. destruct l as [|[| |]]; reflexivity. Qed.

(** The first component of [shr] is a floor division, the second the
    shifted exponent. *)
Lemma shr_spec (r : shr_record) (e n : Z) :
  0 <= shr_m r ->
  shr_m (fst (shr r e n)) = shr_m r / 2 ^ Z.max 0 n
  /\ snd (shr r e n) = e + Z.max 0 n.
Proof.
  intro H. destruct n as [|p|p]; cbn [shr fst snd].
  - cbn. rewrite Z.div_1_r. split; lia.
  - rewrite iter_shr_1_m by exact H. rewrite Z.max_r by lia. split; reflexivity.
  - cbn. rewrite Z.div_1_r. split; lia.
Qed.

Lemma round_nearest_even_cases (m : Z) (l : location) :
  round_nearest_even m l = m \/ round_nearest_even m l = m + 1.
Proof.
  destruct l as [|[| |]]; cbn; auto.
  destruct (Z.even m); auto.
Qed.

End IntegerShifts.

Section Rounding.

Import B64.

Local Open Scope Q_scope.

(** ** Powers of two *)

Lemma pow2_pos (e : Z) : 0 < 2 ^ e.
Proof. apply Qpower_0_lt. reflexivity. Qed.

Lemma pow2_add (a b : Z) : 2 ^ (a + b) == 2 ^ a * 2 ^ b.
Proof. apply Qpower_plus. discriminate. Qed.

Lemma pow2_mono (a b : Z) : (a <= b)%Z -> 2 ^ a <= 2 ^ b.
Proof. intro H. apply Qpower_le_compat_l; [exact H|]. discriminate. Qed.

Lemma pow2_inject (n : Z) : (0 <= n)%Z -> inject_Z (2 ^ n) == 2 ^ n.
Proof. intro H. rewrite Zpower_Qpower by exact H. reflexivity. Qed.

Lemma pow2_succ (a : Z) : 2 ^ (a + 1) == 2 * 2 ^ a.
Proof. rewrite pow2_add. change (2 ^ 1) with 2. ring. Qed.


Lemma scaled_mono (m m' e : Z) : (m <= m')%Z -> scaled m e <= scaled m' e.
Proof.
  intro H. unfold scaled. apply Qmult_le_compat_r.
  - rewrite <- Zle_Qle. exact H.
  - apply Qlt_le_weak, pow2_pos.
Qed.

Lemma scaled_shift (m e n : Z) :
  (0 <= n)%Z -> scaled m (e + n) == scaled (m * 2 ^ n) e.
Proof.
  intro H. unfold scaled.
  rewrite pow2_add, inject_Z_mult, pow2_inject by exact H. ring.
Qed.

Lemma scaled_one (e : Z) : scaled 1 e == 2 ^ e.
Proof. unfold scaled. ring. Qed.

Lemma scaled_add (a b e : Z) : scaled (a + b) e == scaled a e + scaled b e.
Proof. unfold scaled. rewrite inject_Z_plus. ring. Qed.

Lemma scaled_digits_lower (p : positive) (e : Z) :
  2 ^ (Zpos (digits2_pos p) - 1 + e) <= scaled (Zpos p) e.
Proof.
  rewrite pow2_add. unfold scaled.
  apply Qmult_le_compat_r; [|apply Qlt_le_weak, pow2_pos].
  rewrite <- pow2_inject by lia. rewrite <- Zle_Qle.
  apply digits2_pos_bounds.
Qed.

Lemma scaled_digits_upper (p : positive) (e : Z) :
  scaled (Zpos p) e < 2 ^ (Zpos (digits2_pos p) + e).
Proof.
  rewrite pow2_add. unfold scaled.
  apply Qmult_lt_compat_r; [apply pow2_pos|].
  rewrite <- pow2_inject by lia. rewrite <- Zlt_Qlt.
  apply digits2_pos_bounds.
Qed.


Lemma cell_shift (m e n : Z) (v : Q) :
  (0 <= m)%Z -> (0 <= n)%Z -> cell m e v -> cell (m / 2 ^ n) (e + n) v.
Proof.
  intros Hm Hn [H1 H2].
  assert (Hk : (0 < 2 ^ n)%Z) by (apply Z.pow_pos_nonneg; lia).
  pose proof (Z.mul_div_le m (2 ^ n) Hk) as Hlo.
  pose proof (Z.mul_succ_div_gt m (2 ^ n) Hk) as Hhi.
  split.
  - rewrite scaled_shift by exact Hn.
    eapply Qle_trans; [|exact H1]. apply scaled_mono. lia.
  - rewrite scaled_shift by exact Hn.
    eapply Qlt_le_trans; [exact H2|]. apply scaled_mono. lia.
Qed.


Lemma fexp64_eq (x : Z) : fexp64 x = Z.max (x - 53) (-1074).
Proof. reflexivity. Qed.

Lemma pow2_lt_inv (a b : Z) (x : Q) :
  2 ^ a <= x -> x < 2 ^ b -> (a < b)%Z.
Proof.
  intros H1 H2. destruct (Z_lt_le_dec a b) as [H | H]; [exact H|].
  exfalso. apply pow2_mono in H.
  apply (Qlt_irrefl x). eapply Qlt_le_trans; [exact H2|].
  eapply Qle_trans; [exact H|exact H1].
Qed.

Lemma shr_fexp_spec (m e : Z) (l : location) :
  (0 <= m)%Z ->
  let n := Z.max 0 (fexp64 (Zdigits2 m + e) - e) in
  shr_m (fst (shr_fexp prec emax m e l)) = (m / 2 ^ n)%Z
  /\ snd (shr_fexp prec emax m e l) = (e + n)%Z.
Proof.
  intros H n. unfold shr_fexp.
  pose proof (shr_spec (shr_record_of_loc m l) e
                (fexp64 (Zdigits2 m + e) - e)) as Hs.
  rewrite shr_record_of_loc_m in Hs. apply Hs. exact H.
Qed.

(** Digits of a non-negative integer against a power of two. *)
Lemma Zdigits2_small (m n : Z) :
  (0 < m)%Z -> (0 <= n)%Z -> (m < 2 ^ n)%Z -> (Zdigits2 m <= n)%Z.
Proof.
  intros Hm Hn Hlt. destruct m as [|p|p]; try lia. cbn [Zdigits2].
  pose proof (digits2_pos_bounds p) as [Hlo _].
  assert (H : (2 ^ (Zpos (digits2_pos p) - 1) < 2 ^ n)%Z) by lia.
  apply Z.pow_lt_mono_r_iff in H; lia.
Qed.

Lemma Zdigits2_pos (m : Z) : (0 < m)%Z -> (1 <= Zdigits2 m)%Z.
Proof. destruct m; cbn; lia. Qed.

(** The crude rounding bound: the result of [binary_round_aux] on a cell
    that contains [v] is within two units in the last place of [v]; a
    value below [2^1020] does not overflow, and only a value below the
    smallest subnormal rounds to zero. *)
Lemma round_aux_bound (s : bool) (m e : Z) (l : location) (v : Q) :
  (0 <= m)%Z -> cell m e v ->
  (m = 0 -> e <= -1074)%Z ->
  (e <= 971 \/ e <= fexp64 (Zdigits2 m + e))%Z ->
  v < 2 ^ 1020 ->
  match binary_round_aux prec emax s m e l with
  | S754_zero _ => v < 2 ^ (-1074)
  | S754_finite s' mf ef =>
      s' = s /\ Qabs (scaled (Zpos mf) ef - v) <= 2 * 2 ^ ef
  | _ => False
  end.
Proof.
  intros Hm Hc Hz He Hv.
  unfold binary_round_aux.
  destruct (shr_fexp_spec m e l Hm) as [Em1 Ee1].
  destruct (shr_fexp prec emax m e l) as [r1 e1]. cbn [fst snd] in Em1, Ee1.
  set (n1 := Z.max 0 (fexp64 (Zdigits2 m + e) - e)) in *.
  assert (Hn1 : (0 <= n1)%Z) by (unfold n1; lia).
  assert (Hc1 : cell (shr_m r1) e1 v).
  { rewrite Em1, Ee1. apply cell_shift; assumption. }
  assert (Hm1 : (0 <= shr_m r1)%Z).
  { rewrite Em1. apply Z.div_pos; [exact Hm|]. apply Z.pow_pos_nonneg; lia. }
  set (m2 := round_nearest_even (shr_m r1) (loc_of_shr_record r1)).
  assert (Hm2 : (shr_m r1 <= m2 <= shr_m r1 + 1)%Z).
  { unfold m2.
    destruct (round_nearest_even_cases (shr_m r1) (loc_of_shr_record r1));
      lia. }
  assert (Hm2' : (0 <= m2)%Z) by lia.
  destruct (shr_fexp_spec m2 e1 loc_Exact Hm2') as [Em3 Ee3].
  destruct (shr_fexp prec emax m2 e1 loc_Exact) as [r3 e3].
  cbn [fst snd] in Em3, Ee3.
  set (n2 := Z.max 0 (fexp64 (Zdigits2 m2 + e1) - e1)) in *.
  assert (Hn2 : (0 <= n2)%Z) by (unfold n2; lia).
  (* the exponent of the first shift *)
  assert (He1lo : (-1074 <= e1)%Z).
  { rewrite Ee1. unfold n1. rewrite fexp64_eq. lia. }
  assert (He1hi : (e1 <= 971)%Z).
  { destruct (Z.eq_dec m 0) as [-> | Hm0].
    - specialize (Hz eq_refl). rewrite Ee1. unfold n1.
      rewrite fexp64_eq. cbn [Zdigits2]. lia.
    - destruct m as [|p|p]; try lia. cbn [Zdigits2] in *.
      pose proof (scaled_digits_lower p e) as Hlo.
      assert (Hd : (Zpos (digits2_pos p) - 1 + e < 1020)%Z).
      { eapply pow2_lt_inv; [|exact Hv].
        eapply Qle_trans; [exact Hlo|]. apply Hc. }
      rewrite Ee1. unfold n1. rewrite fexp64_eq in *. lia. }
  (* the value after the second shift *)
  assert (Hk : (0 < 2 ^ n2)%Z) by (apply Z.pow_pos_nonneg; lia).
  pose proof (Z.mul_div_le m2 (2 ^ n2) Hk) as Hlo3.
  pose proof (Z.mul_succ_div_gt m2 (2 ^ n2) Hk) as Hhi3.
  rewrite <- Em3 in Hlo3, Hhi3.
  assert (Hm3 : (0 <= shr_m r3)%Z).
  { rewrite Em3. apply Z.div_pos; lia. }
  assert (Hval : Qabs (scaled (shr_m r3) e3 - v) <= 2 ^ e3).
  { destruct Hc1 as [Hc1 Hc1'].
    assert (E3 : scaled (shr_m r3) e3 == scaled (shr_m r3 * 2 ^ n2) e1).
    { rewrite Ee3. apply scaled_shift. exact Hn2. }
    assert (Ep : 2 ^ e3 == scaled (2 ^ n2) e1).
    { rewrite Ee3, <- scaled_one. rewrite scaled_shift by exact Hn2.
      rewrite Z.mul_1_l. reflexivity. }
    assert (Hp1 : 2 ^ e1 <= 2 ^ e3) by (apply pow2_mono; lia).
    apply Qabs_Qle_condition. split.
    - (* v - result <= 2^e3 *)
      assert (H : v - scaled (shr_m r3 * 2 ^ n2) e1 <= scaled (2 ^ n2) e1).
      { assert (Hle : scaled (shr_m r1 + 1) e1
                      <= scaled (shr_m r3 * 2 ^ n2 + 2 ^ n2) e1)
          by (apply scaled_mono; lia).
        rewrite (scaled_add (shr_m r3 * 2 ^ n2)) in Hle. lra. }
      rewrite E3, Ep. lra.
    - (* result - v <= 2^e1 *)
      assert (Hle : scaled (shr_m r3 * 2 ^ n2) e1 <= scaled (shr_m r1 + 1) e1)
        by (apply scaled_mono; lia).
      rewrite (scaled_add (shr_m r1)), scaled_one in Hle.
      rewrite E3. lra. }
  destruct (shr_m r3) as [|mf|mf] eqn:Emf; [| |lia].
  - (* zero *)
    assert (Hsmall : (m2 < 2 ^ n2)%Z) by lia.
    assert (Hn2z : n2 = 0%Z).
    { destruct (Z.eq_dec n2 0) as [E | E]; [exact E|].
      exfalso.
      assert (Hpos : (0 < n2)%Z) by lia.
      destruct (Z.eq_dec m2 0) as [Em2 | Em2].
      - unfold n2 in Hpos. rewrite Em2, fexp64_eq in Hpos.
        cbn [Zdigits2] in Hpos. lia.
      - assert (Hd : (Zdigits2 m2 <= n2)%Z)
          by (apply Zdigits2_small; lia).
        pose proof (Zdigits2_pos m2 ltac:(lia)) as Hd1.
        unfold n2 in Hd. rewrite fexp64_eq in Hd. lia. }
    rewrite Hn2z in Hsmall. cbn in Hsmall.
    assert (Hr1 : shr_m r1 = 0%Z) by lia.
    assert (He1 : e1 = (-1074)%Z).
    { destruct (Z.eq_dec m 0) as [-> | Hm0].
      - specialize (Hz eq_refl). rewrite Ee1. unfold n1.
        rewrite fexp64_eq. cbn [Zdigits2]. lia.
      - assert (Hlt : (m < 2 ^ n1)%Z).
        { rewrite Em1 in Hr1.
          apply Z.div_small_iff in Hr1;
            [|apply Z.pow_nonzero; lia]. lia. }
        assert (Hd : (Zdigits2 m <= n1)%Z)
          by (apply Zdigits2_small; lia).
        pose proof (Zdigits2_pos m ltac:(lia)) as Hd1.
        rewrite Ee1. unfold n1 in *. rewrite fexp64_eq in *. lia. }
    destruct Hc1 as [_ Hc1]. rewrite Hr1, He1 in Hc1.
    cbn [Z.add] in Hc1. rewrite scaled_one in Hc1. exact Hc1.
  - (* a positive mantissa: finite unless the exponent is too large *)
    assert (He3 : (e3 <= 971)%Z).
    { destruct (Z.eq_dec n2 0) as [E | E]; [lia|].
      assert (Hm2pos : (0 < m2)%Z).
      { destruct (Z.eq_dec m2 0) as [Em2 | Em2]; [|lia].
        exfalso. unfold n2 in E. rewrite Em2, fexp64_eq in E.
        cbn [Zdigits2] in E. lia. }
      destruct m2 as [|p2|p2] eqn:Ep2; try lia.
      cbn [Zdigits2] in *.
      pose proof (scaled_digits_lower p2 e1) as Hlo.
      assert (Hup : scaled (Zpos p2) e1 <= v + 2 ^ e1).
      { destruct Hc1 as [Hc1 _].
        assert (Hle : scaled (Zpos p2) e1 <= scaled (shr_m r1 + 1) e1)
          by (apply scaled_mono; lia).
        rewrite (scaled_add (shr_m r1)), scaled_one in Hle. lra. }
      assert (Hp : 2 ^ e1 <= 2 ^ 1020) by (apply pow2_mono; lia).
      assert (Hd : (Zpos (digits2_pos p2) - 1 + e1 < 1021)%Z).
      { eapply pow2_lt_inv with (x := v + 2 ^ e1); [lra|].
        rewrite (pow2_succ 1020). lra. }
      rewrite Ee3. unfold n2. rewrite fexp64_eq. lia. }
    replace (e3 <=? emax - prec)%Z with true
      by (symmetry; apply Z.leb_le; exact He3).
    split; [reflexivity|].
    eapply Qle_trans; [exact Hval|].
    pose proof (pow2_pos e3). lra.
Qed.


Lemma scaled_pos (p : positive) (e : Z) : 0 < scaled (Zpos p) e.
Proof.
  unfold scaled. apply Qmult_lt_0_compat; [reflexivity|apply pow2_pos].
Qed.

(** What validity says of a finite datum. *)
Lemma valid_finite (s : bool) (m : positive) (e : Z) :
  valid_binary (S754_finite s m e) = true ->
  (e <= 971)%Z /\ (-1074 <= e)%Z /\ (Zpos (digits2_pos m) <= 53)%Z
  /\ (e = -1074 \/ Zpos (digits2_pos m) = 53)%Z.
Proof.
  cbn. unfold bounded, canonical_mantissa. rewrite andb_true_iff.
  intros [H1 H2]. apply Z.eqb_eq in H1. apply Z.leb_le in H2.
  rewrite fexp64_eq in H1. change (emax - prec)%Z with 971%Z in H2. lia.
Qed.

Lemma Prim2SF_finite_valid (x : float) (s : bool) (m : positive) (e : Z) :
  Prim2SF x = S754_finite s m e ->
  (e <= 971)%Z /\ (-1074 <= e)%Z /\ (Zpos (digits2_pos m) <= 53)%Z
  /\ (e = -1074 \/ Zpos (digits2_pos m) = 53)%Z.
Proof.
  intro H. apply (valid_finite s). rewrite <- H. apply Prim2SF_valid.
Qed.

(** Two units in the last place of a valid datum, against its value. *)
Lemma ulp_bound (m : positive) (e : Z) :
  (e = -1074 \/ Zpos (digits2_pos m) = 53)%Z ->
  2 * 2 ^ e <= tiny + eps * scaled (Zpos m) e.
Proof.
  intros [-> | Hd].
  - assert (H : 2 * 2 ^ (-1074) == tiny) by reflexivity.
    rewrite H. pose proof (scaled_pos m (-1074)).
    assert (0 < eps) by apply pow2_pos.
    assert (0 <= eps * scaled (Zpos m) (-1074))
      by (apply Qmult_le_0_compat; lra).
    lra.
  - pose proof (scaled_digits_lower m e) as Hlo. rewrite Hd in Hlo.
    assert (E : 2 * 2 ^ e == eps * 2 ^ (53 - 1 + e)).
    { unfold eps. rewrite <- pow2_add, <- pow2_succ. apply Qpower_comp;
        [reflexivity|lia]. }
    rewrite E.
    assert (Ht : 0 < tiny) by apply pow2_pos.
    assert (He : 0 < eps) by apply pow2_pos.
    assert (eps * 2 ^ (53 - 1 + e) <= eps * scaled (Zpos m) e).
    { apply Qmult_le_l; assumption. }
    lra.
Qed.

Lemma digits2_pos_mul_l (p q : positive) :
  (Zpos (digits2_pos p) <= Zpos (digits2_pos (p * q)))%Z.
Proof.
  pose proof (digits2_pos_bounds p) as [Hlo _].
  pose proof (digits2_pos_bounds (p * q)) as [_ Hhi].
  assert (H : (2 ^ (Zpos (digits2_pos p) - 1)
               < 2 ^ Zpos (digits2_pos (p * q)))%Z) by nia.
  apply Z.pow_lt_mono_r_iff in H; lia.
Qed.

Lemma digits2_pos_mul_r (p q : positive) :
  (Zpos (digits2_pos q) <= Zpos (digits2_pos (p * q)))%Z.
Proof. rewrite Pos.mul_comm. apply digits2_pos_mul_l. Qed.

(** A number that is not negative is a zero or a positive finite datum. *)
Lemma value_nonneg (x : float) (X : Q) :
  value x = Some X -> 0 <= X ->
  (X = 0 /\ exists s, Prim2SF x = S754_zero s)
  \/ (exists m e, Prim2SF x = S754_finite false m e
                  /\ X = scaled (Zpos m) e).
Proof.
  unfold value. destruct (Prim2SF x) as [s|s| |s m e]; cbn;
    try discriminate; intros [= <-] H.
  - left. eauto.
  - right. destruct s.
    + exfalso. pose proof (scaled_pos m e). lra.
    + eauto.
Qed.

(** The product of two binary64 numbers, with its rounding error. *)
Lemma mul_bound (x y : float) (X Y : Q) :
  value x = Some X -> value y = Some Y -> 0 <= X -> 0 <= Y ->
  X * Y < 2 ^ 1020 ->
  exists Z, value (x * y)%float = Some Z /\ 0 <= Z
            /\ Qabs (Z - X * Y) <= tiny + eps * Z.
Proof.
  intros Hx Hy HX HY Hv.
  assert (Ht : 0 < tiny) by apply pow2_pos.
  assert (He : 0 < eps) by apply pow2_pos.
  assert (Hzero : forall s,
             Prim2SF (x * y)%float = S754_zero s -> X * Y < 2 ^ (-1074) ->
             exists Z, value (x * y)%float = Some Z /\ 0 <= Z
                       /\ Qabs (Z - X * Y) <= tiny + eps * Z).
  { intros s E Hs. exists 0. unfold value. rewrite E. cbn [SF2Q].
    split; [reflexivity|]. split; [lra|].
    assert (H0 : 0 <= X * Y) by (apply Qmult_le_0_compat; assumption).
    apply Qabs_Qle_condition.
    assert (2 ^ (-1074) <= tiny) by (apply pow2_mono; lia).
    split; lra. }
  destruct (value_nonneg x X Hx HX) as [[-> [sx Ex]] | (mx & ex & Ex & ->)];
  destruct (value_nonneg y Y Hy HY) as [[-> [sy Ey]] | (my & ey & Ey & ->)].
  - apply (Hzero (xorb sx sy)); [rewrite mul_spec, Ex, Ey; reflexivity|].
    pose proof (pow2_pos (-1074)). lra.
  - apply (Hzero (xorb sx false)); [rewrite mul_spec, Ex, Ey; reflexivity|].
    pose proof (pow2_pos (-1074)). lra.
  - apply (Hzero (xorb false sy)); [rewrite mul_spec, Ex, Ey; reflexivity|].
    pose proof (pow2_pos (-1074)). lra.
  - destruct (Prim2SF_finite_valid x _ _ _ Ex) as (Hx1 & Hx2 & Hx3 & Hx4).
    destruct (Prim2SF_finite_valid y _ _ _ Ey) as (Hy1 & Hy2 & Hy3 & Hy4).
    assert (Eprod : scaled (Zpos (mx * my)) (ex + ey)
                    == scaled (Zpos mx) ex * scaled (Zpos my) ey).
    { unfold scaled. rewrite Pos2Z.inj_mul, inject_Z_mult, pow2_add. ring. }
    pose proof (round_aux_bound false (Zpos (mx * my)) (ex + ey) loc_Exact
                  (scaled (Zpos mx) ex * scaled (Zpos my) ey)) as Hr.
    assert (Hspec : Prim2SF (x * y)%float
                    = binary_round_aux prec emax false (Zpos (mx * my))
                        (ex + ey) loc_Exact).
    { rewrite mul_spec, Ex, Ey. reflexivity. }
    rewrite <- Hspec in Hr.
    lapply Hr; [clear Hr; intro Hr|lia].
    lapply Hr; [clear Hr; intro Hr|].
    2: { split; [rewrite Eprod; apply Qle_refl|].
         rewrite scaled_add, Eprod, scaled_one.
         pose proof (pow2_pos (ex + ey)). lra. }
    lapply Hr; [clear Hr; intro Hr|lia].
    lapply Hr; [clear Hr; intro Hr|].
    2: { cbn [Zdigits2]. rewrite fexp64_eq.
         pose proof (digits2_pos_mul_l mx my).
         pose proof (digits2_pos_mul_r mx my). lia. }
    specialize (Hr Hv).
    destruct (Prim2SF (x * y)%float) as [s|s| |s mf ef] eqn:E;
      try contradiction.
    + apply (Hzero s); [reflexivity|exact Hr].
    + destruct Hr as [-> Hr].
      destruct (Prim2SF_finite_valid _ _ _ _ E) as (_ & _ & _ & Hc).
      exists (scaled (Zpos mf) ef). unfold value. rewrite E. cbn [SF2Q].
      split; [reflexivity|]. split; [apply Qlt_le_weak, scaled_pos|].
      eapply Qle_trans; [exact Hr|]. apply ulp_bound. exact Hc.
Qed.

(** The quotient cell that [SFdiv_core_binary] computes. *)
Lemma div_core_spec (m1 m2 : positive) (e1 e2 : Z) :
  (Zpos (digits2_pos m1) <= 53)%Z ->
  let q := fst (fst (SFdiv_core_binary prec emax (Zpos m1) e1 (Zpos m2) e2)) in
  let e' := snd (fst (SFdiv_core_binary prec emax (Zpos m1) e1 (Zpos m2) e2)) in
  (0 <= q)%Z
  /\ cell q e' (scaled (Zpos m1) e1 / scaled (Zpos m2) e2)
  /\ (q = 0 -> e' <= -1074)%Z
  /\ (e' <= fexp64 (Zpos (digits2_pos m1) + e1
                    - (Zpos (digits2_pos m2) + e2)))%Z.
Proof.
  intros Hd1. unfold SFdiv_core_binary. cbn [Zdigits2].
  set (delta := (Zpos (digits2_pos m1) + e1
                 - (Zpos (digits2_pos m2) + e2))%Z).
  set (e' := Z.min (fexp64 delta) (e1 - e2)).
  set (s := (e1 - e2 - e')%Z).
  assert (Hs : (0 <= s)%Z) by (unfold s, e'; lia).
  set (m' := match s with
             | Zpos _ => Z.shiftl (Zpos m1) s
             | Z0 => Zpos m1
             | Zneg _ => Z0
             end).
  assert (Em' : m' = (Zpos m1 * 2 ^ s)%Z).
  { unfold m'. destruct s as [|p|p] eqn:Es; [| |lia].
    - change (2 ^ 0)%Z with 1%Z. lia.
    - rewrite Z.shiftl_mul_pow2 by lia. reflexivity. }
  clearbody m'.
  pose proof (Z_div_mod m' (Zpos m2) ltac:(lia)) as Hdm.
  destruct (Z.div_eucl m' (Zpos m2)) as [q r]. cbn [fst snd].
  destruct Hdm as [Eq Hr].
  assert (Hpow : (0 < 2 ^ s)%Z) by (apply Z.pow_pos_nonneg; lia).
  assert (Hq : (0 <= q)%Z) by nia.
  assert (HB : 0 < scaled (Zpos m2) e2) by apply scaled_pos.
  assert (Enum : scaled (Zpos m1) e1 == scaled m' (e' + e2)).
  { rewrite Em'. rewrite <- scaled_shift by exact Hs.
    unfold scaled. apply Qmult_comp; [reflexivity|].
    apply Qpower_comp; [reflexivity|]. unfold s. lia. }
  assert (Eden : forall k, scaled k e' * scaled (Zpos m2) e2
                           == scaled (k * Zpos m2) (e' + e2)).
  { intro k. unfold scaled. rewrite inject_Z_mult, pow2_add. ring. }
  split; [exact Hq|]. split; [|split].
  - split.
    + apply Qle_shift_div_l; [exact HB|].
      rewrite Eden, Enum. apply scaled_mono. lia.
    + apply Qlt_shift_div_r; [exact HB|].
      rewrite Eden, Enum. unfold scaled.
      apply Qmult_lt_compat_r; [apply pow2_pos|].
      rewrite <- Zlt_Qlt. nia.
  - intros ->.
    destruct (Z_le_gt_dec e' (-1074)) as [H | H]; [exact H|]. exfalso.
    assert (Hf : fexp64 delta = (delta - 53)%Z)
      by (unfold e' in H; rewrite fexp64_eq in *; lia).
    assert (Hs' : (Zpos (digits2_pos m2) <= s)%Z).
    { unfold s, e'. rewrite Hf. unfold delta. lia. }
    pose proof (digits2_pos_bounds m2) as [_ Hup].
    assert (Hle : (2 ^ Zpos (digits2_pos m2) <= 2 ^ s)%Z)
      by (apply Z.pow_le_mono_r; lia).
    nia.
  - unfold e'. lia.
Qed.

(** A quotient of positive data is above the power of two its digits
    give. *)
Lemma quotient_lower (m1 m2 : positive) (e1 e2 : Z) :
  2 ^ (Zpos (digits2_pos m1) + e1 - (Zpos (digits2_pos m2) + e2) - 1)
  <= scaled (Zpos m1) e1 / scaled (Zpos m2) e2.
Proof.
  pose proof (scaled_digits_lower m1 e1) as H1.
  pose proof (scaled_digits_upper m2 e2) as H2.
  pose proof (scaled_pos m2 e2) as HB.
  apply Qle_shift_div_l; [exact HB|].
  eapply Qle_trans; [|exact H1].
  set (a := (Zpos (digits2_pos m1) - 1 + e1)%Z).
  set (b := (Zpos (digits2_pos m2) + e2)%Z) in *.
  assert (E : 2 ^ a == 2 ^ (Zpos (digits2_pos m1) + e1 - b - 1) * 2 ^ b).
  { rewrite <- pow2_add. apply Qpower_comp; [reflexivity|]. unfold a. lia. }
  rewrite E.
  apply Qmult_le_l; [apply pow2_pos|]. apply Qlt_le_weak. exact H2.
Qed.

(** The quotient of two binary64 numbers, with its rounding error. *)
Lemma div_bound (x y : float) (X Y : Q) :
  value x = Some X -> value y = Some Y -> 0 <= X -> 0 < Y ->
  X / Y < 2 ^ 1020 ->
  exists Z, value (x / y)%float = Some Z /\ 0 <= Z
            /\ Qabs (Z - X / Y) <= tiny + eps * Z.
Proof.
  intros Hx Hy HX HY Hv.
  assert (Ht : 0 < tiny) by apply pow2_pos.
  assert (He : 0 < eps) by apply pow2_pos.
  assert (H0 : 0 <= X / Y).
  { apply Qle_shift_div_l; [exact HY|]. lra. }
  assert (Hzero : forall s,
             Prim2SF (x / y)%float = S754_zero s -> X / Y < 2 ^ (-1074) ->
             exists Z, value (x / y)%float = Some Z /\ 0 <= Z
                       /\ Qabs (Z - X / Y) <= tiny + eps * Z).
  { intros s E Hs. exists 0. unfold value. rewrite E. cbn [SF2Q].
    split; [reflexivity|]. split; [lra|].
    apply Qabs_Qle_condition.
    assert (2 ^ (-1074) <= tiny) by (apply pow2_mono; lia).
    split; lra. }
  destruct (value_nonneg y Y Hy (Qlt_le_weak _ _ HY))
    as [[-> _] | (my & ey & Ey & ->)]; [lra|].
  destruct (value_nonneg x X Hx HX) as [[-> [sx Ex]] | (mx & ex & Ex & ->)].
  - apply (Hzero (xorb sx false)); [rewrite div_spec, Ex, Ey; reflexivity|].
    assert (E : 0 / scaled (Zpos my) ey == 0) by (unfold Qdiv; ring).
    rewrite E. apply pow2_pos.
  - destruct (Prim2SF_finite_valid x _ _ _ Ex) as (Hx1 & Hx2 & Hx3 & Hx4).
    pose proof (div_core_spec mx my ex ey Hx3) as Hcore.
    pose proof (quotient_lower mx my ex ey) as Hlow.
    assert (Hspec : Prim2SF (x / y)%float
                    = SFdiv prec emax (S754_finite false mx ex)
                        (S754_finite false my ey)).
    { rewrite div_spec, Ex, Ey. reflexivity. }
    cbn [SFdiv] in Hspec.
    destruct (SFdiv_core_binary prec emax (Zpos mx) ex (Zpos my) ey)
      as [[q e'] l].
    cbn [fst snd xorb] in Hcore, Hspec.
    destruct Hcore as (Hq & Hcell & Hq0 & He').
    assert (Hdelta : (Zpos (digits2_pos mx) + ex
                      - (Zpos (digits2_pos my) + ey) - 1 < 1020)%Z).
    { eapply pow2_lt_inv; [exact Hlow|exact Hv]. }
    pose proof (round_aux_bound false q e' l
                  (scaled (Zpos mx) ex / scaled (Zpos my) ey)
                  Hq Hcell Hq0) as Hr.
    rewrite <- Hspec in Hr.
    lapply Hr; [clear Hr; intro Hr|].
    2: { left. rewrite fexp64_eq in He'. lia. }
    specialize (Hr Hv).
    destruct (Prim2SF (x / y)%float) as [s|s| |s mf ef] eqn:E;
      try contradiction.
    + apply (Hzero s); [reflexivity|exact Hr].
    + destruct Hr as [-> Hr].
      destruct (Prim2SF_finite_valid _ _ _ _ E) as (_ & _ & _ & Hc).
      exists (scaled (Zpos mf) ef). unfold value. rewrite E. cbn [SF2Q].
      split; [reflexivity|]. split; [apply Qlt_le_weak, scaled_pos|].
      eapply Qle_trans; [exact Hr|]. apply ulp_bound. exact Hc.
Qed.


Lemma k40_pow : k40 == 2 ^ (-40).
Proof. reflexivity. Qed.

Lemma tiny_le_k40 : tiny <= k40.
Proof. rewrite k40_pow. apply pow2_mono. lia. Qed.

Lemma eps_le_k40 : eps <= k40.
Proof. rewrite k40_pow. apply pow2_mono. lia. Qed.

(** The two-sided, linear form of a rounding error. *)
Lemma err_linear (Z v : Q) :
  0 <= Z -> Qabs (Z - v) <= tiny + eps * Z ->
  - (tiny + k40 * Z) <= Z - v /\ Z - v <= tiny + k40 * Z.
Proof.
  intros HZ H. apply Qabs_Qle_condition in H.
  assert (He : eps * Z <= k40 * Z)
    by (apply Qmult_le_compat_r; [apply eps_le_k40|exact HZ]).
  split; lra.
Qed.

Lemma div_le_compat (a b c : Q) : 0 < c -> a <= b -> a / c <= b / c.
Proof.
  intros Hc H. unfold Qdiv. apply Qmult_le_compat_r; [exact H|].
  apply Qlt_le_weak, Qinv_lt_0_compat, Hc.
Qed.

(** Time to pixels and back in binary64: for numbers of moderate size the
    result is within one pixel's time of the start. *)
Lemma roundtrip_binary64 (t d w : float) (T D W : Q) :
  value t = Some T -> value d = Some D -> value w = Some W ->
  0 <= T -> T <= D ->
  2 ^ (-1000) <= D -> D <= 2 ^ 1000 ->
  1 <= W -> W <= 2 ^ 20 ->
  exists B, value (((t / d) * w) / w * d)%float = Some B
            /\ Qabs (B - T) <= D / W.
Proof.
  intros Ht Hd Hw HT0 HTD HDlo HDhi HWlo HWhi.
  assert (Htk := tiny_le_k40). unfold k40 in Htk.
  assert (Htpos : 0 < tiny) by apply pow2_pos.
  assert (HD : 0 < D)
    by (eapply Qlt_le_trans; [apply (pow2_pos (-1000))|exact HDlo]).
  assert (HW : 0 < W) by lra.
  assert (Hbig : 2 ^ 23 <= 2 ^ 1020) by (apply pow2_mono; lia).
  assert (E23 : 2 ^ 23 == 8388608) by reflexivity.
  assert (E20 : 2 ^ 20 == 1048576) by reflexivity.
  (* t / d *)
  assert (Hx : 0 <= T / D /\ T / D <= 1).
  { split; [apply Qle_shift_div_l; lra|apply Qle_shift_div_r; lra]. }
  destruct (div_bound t d T D Ht Hd HT0 HD) as (Q1 & HQ1 & HQ1pos & HQ1err);
    [lra|].
  apply err_linear in HQ1err; [|exact HQ1pos]. unfold k40 in *.
  (* ... * w *)
  assert (HQW : 0 <= Q1 * W /\ Q1 * W <= 2 * W).
  { split; [apply Qmult_le_0_compat; lra|].
    apply Qmult_le_compat_r; lra. }
  destruct (mul_bound _ w Q1 W HQ1 Hw HQ1pos (Qlt_le_weak _ _ HW))
    as (P & HP & HPpos & HPerr); [lra|].
  apply err_linear in HPerr; [|exact HPpos]. unfold k40 in *.
  (* ... / w, with [pi] the position in units of the track *)
  set (pi := P / W) in *.
  assert (Hpi0 : 0 <= pi) by (apply Qle_shift_div_l; lra).
  assert (EP : P == pi * W) by (unfold pi; field; lra).
  assert (Hpi : - (tiny + (1 # 1099511627776) * pi) <= pi - Q1
                /\ pi - Q1 <= tiny + (1 # 1099511627776) * pi).
  { destruct HPerr as [H1 H2].
    assert (Ea : (P - Q1 * W) / W == pi - Q1) by (unfold pi; field; lra).
    assert (Eb : (tiny + (1 # 1099511627776) * P) / W == tiny / W + (1 # 1099511627776) * pi)
      by (unfold pi; field; lra).
    assert (Htw : tiny / W <= tiny) by (apply Qle_shift_div_r; nra).
    apply (div_le_compat _ _ W HW) in H2. rewrite Ea, Eb in H2.
    apply (div_le_compat _ _ W HW) in H1.
    assert (Ec : - (tiny + (1 # 1099511627776) * P) / W == - (tiny / W + (1 # 1099511627776) * pi))
      by (unfold pi; field; lra).
    rewrite Ea, Ec in H1.
    assert (0 <= tiny / W) by (apply Qle_shift_div_l; lra).
    split; lra. }
  destruct (div_bound _ w P W HP Hw HPpos HW) as (R & HR & HRpos & HRerr);
    [fold pi; lra|].
  fold pi in HRerr. apply err_linear in HRerr; [|exact HRpos].
  unfold k40 in *.
  (* ... * d *)
  assert (HRD : 0 <= R * D /\ R * D <= 4 * D).
  { split; [apply Qmult_le_0_compat; lra|].
    apply Qmult_le_compat_r; lra. }
  assert (H4D : 4 * D < 2 ^ 1020).
  { assert (E : 4 * 2 ^ 1000 == 2 ^ 1002)
      by (rewrite (pow2_add 2 1000); reflexivity).
    assert (2 ^ 1002 < 2 ^ 1020)
      by (apply Qpower_lt_compat_l; [lia|reflexivity]).
    lra. }
  destruct (mul_bound _ d R D HR Hd HRpos (Qlt_le_weak _ _ HD))
    as (B & HB & HBpos & HBerr); [lra|].
  apply err_linear in HBerr; [|exact HBpos]. unfold k40 in *.
  exists B. split; [exact HB|].
  (* in units of the duration *)
  set (beta := B / D) in *.
  assert (EB : B == beta * D) by (unfold beta; field; lra).
  assert (ET : T == T / D * D) by (field; lra).
  assert (HtD : tiny / D <= 1 # 1099511627776).
  { apply Qle_shift_div_r; [exact HD|].
    assert (E : tiny == 2 ^ (-73) * 2 ^ (-1000))
      by (unfold tiny; rewrite <- pow2_add; reflexivity).
    assert (H73 : 2 ^ (-73) <= 1 # 1099511627776)
      by (assert (E40 : 1 # 1099511627776 == 2 ^ (-40)) by reflexivity;
          rewrite E40; apply pow2_mono; lia).
    assert (H73' : 0 < 2 ^ (-73)) by apply pow2_pos.
    rewrite E.
    apply Qle_trans with (2 ^ (-73) * D).
    - apply Qmult_le_l; [exact H73'|exact HDlo].
    - apply Qmult_le_compat_r; lra. }
  assert (Hbeta : - ((1 # 1099511627776) + (1 # 1099511627776) * beta)
                  <= beta - R
                  /\ beta - R
                     <= (1 # 1099511627776) + (1 # 1099511627776) * beta).
  { destruct HBerr as [H1 H2].
    assert (Ea : (B - R * D) / D == beta - R) by (unfold beta; field; lra).
    assert (Eb : (tiny + (1 # 1099511627776) * B) / D == tiny / D + (1 # 1099511627776) * beta)
      by (unfold beta; field; lra).
    assert (Ec : - (tiny + (1 # 1099511627776) * B) / D == - (tiny / D + (1 # 1099511627776) * beta))
      by (unfold beta; field; lra).
    apply (div_le_compat _ _ D HD) in H2. rewrite Ea, Eb in H2.
    apply (div_le_compat _ _ D HD) in H1. rewrite Ea, Ec in H1.
    split; lra. }
  set (x := T / D) in *.
  assert (Hgoal : - (1 # 1048576) <= beta - x /\ beta - x <= 1 # 1048576).
  { destruct HQ1err, Hpi, HRerr, Hbeta, Hx. split; lra. }
  assert (Hinv : 1 # 1048576 <= / W).
  { assert (E : / W == 1 / W) by (field; lra). rewrite E.
    apply Qle_shift_div_l; [exact HW|]. lra. }
  apply Qabs_Qle_condition.
  assert (Edw : D / W == / W * D) by (field; lra).
  assert (Ediff : B - T == (beta - x) * D) by (unfold beta, x; field; lra).
  rewrite Edw, Ediff.
  destruct Hgoal as [G1 G2].
  assert (G1' : - / W <= beta - x) by lra.
  assert (G2' : beta - x <= / W) by lra.
  split.
  - setoid_replace (- (/ W * D)) with ((- / W) * D) by ring.
    apply Qmult_le_compat_r; lra.
  - apply Qmult_le_compat_r; lra.
Qed.

End Rounding.

(** ** The trim range in binary64 *)

Section TrimmerBinary64.

Import Trimmer64.

Local Open Scope float_scope.

(** Rounding a mantissa that is not negative never gives [NaN]. *)
Lemma round_aux_not_nan (s : bool) (m e : Z) (l : location) :
  (0 <= m)%Z -> binary_round_aux prec emax s m e l <> S754_nan.
Proof.
  intro Hm. unfold binary_round_aux.
  destruct (shr_fexp_spec m e l Hm) as [Em1 _].
  destruct (shr_fexp prec emax m e l) as [r1 e1]. cbn [fst snd] in Em1.
  assert (Hm1 : (0 <= shr_m r1)%Z).
  { rewrite Em1. apply Z.div_pos; [exact Hm|].
    apply Z.pow_pos_nonneg; lia. }
  set (m2 := round_nearest_even (shr_m r1) (loc_of_shr_record r1)).
  assert (Hm2 : (0 <= m2)%Z).
  { destruct (round_nearest_even_cases (shr_m r1) (loc_of_shr_record r1))
      as [E|E]; unfold m2; rewrite E; lia. }
  destruct (shr_fexp_spec m2 e1 loc_Exact Hm2) as [Em3 _].
  destruct (shr_fexp prec emax m2 e1 loc_Exact) as [r3 e3].
  cbn [fst snd] in Em3.
  assert (Hm3 : (0 <= shr_m r3)%Z).
  { rewrite Em3. apply Z.div_pos; [exact Hm2|].
    apply Z.pow_pos_nonneg; lia. }
  destruct (shr_m r3) as [|q|q]; [discriminate| |lia].
  destruct (e3 <=? emax - prec)%Z; discriminate.
Qed.

Lemma normalize_not_nan (m e : Z) (szero : bool) :
  binary_normalize prec emax m e szero <> S754_nan.
Proof.
  unfold binary_normalize, binary_round.
  destruct m as [|q|q]; [discriminate| |];
    destruct (shl_align _ _ _) as [mz ez];
    apply round_aux_not_nan; lia.
Qed.

Lemma number_spec (x : float) : number x <-> Prim2SF x <> S754_nan.
Proof.
  unfold number. rewrite is_nan_spec.
  destruct (Prim2SF x); split; intro H; congruence.
Qed.

(** Adding 1000 to a number, or taking it away, gives a number. *)
Lemma add_1000_number (x : float) : number x -> number (x + 1000).
Proof.
  rewrite !number_spec, add_spec. intro H.
  assert (E : Prim2SF 1000 = S754_finite false 8796093022208000 (-43))
    by (vm_compute; reflexivity).
  rewrite E. unfold SF64add, SFadd.
  destruct (Prim2SF x) as [s|s| |s m e]; try discriminate;
    [congruence|apply normalize_not_nan].
Qed.

Lemma sub_1000_number (x : float) : number x -> number (x - 1000).
Proof.
  rewrite !number_spec, sub_spec. intro H.
  assert (E : Prim2SF 1000 = S754_finite false 8796093022208000 (-43))
    by (vm_compute; reflexivity).
  rewrite E. unfold SF64sub, SFsub.
  destruct (Prim2SF x) as [s|s| |s m e]; try discriminate;
    [congruence|apply normalize_not_nan].
Qed.

Lemma float_min_number (a b : float) :
  number a -> number b -> number (Slider.float_min a b).
Proof.
  unfold number, Slider.float_min. intros Ha Hb. rewrite Ha, Hb.
  cbn [orb].
  destruct (a <? b); [exact Ha|].
  destruct (b <? a); [exact Hb|].
  destruct (PrimFloat.get_sign a); assumption.
Qed.

Lemma float_max_number (a b : float) :
  number a -> number b -> number (Slider.float_max a b).
Proof.
  unfold number, Slider.float_max. intros Ha Hb. rewrite Ha, Hb.
  cbn [orb].
  destruct (a <? b); [exact Hb|].
  destruct (b <? a); [exact Ha|].
  destruct (PrimFloat.get_sign a); assumption.
Qed.

Lemma ltb_leb (x y : float) : (x <? y) = true -> (x <=? y) = true.
Proof.
  rewrite ltb_spec, leb_spec. unfold SFltb, SFleb.
  destruct (SFcompare (Prim2SF x) (Prim2SF y)) as [[| |]|];
    intro; congruence.
Qed.

Lemma leb_zero_number (x : float) : (0 <=? x) = true -> number x.
Proof.
  rewrite number_spec, leb_spec. intros H E. rewrite E in H.
  discriminate H.
Qed.

(** [Math.max(0, y)] of a number is a number that is not negative. *)
Lemma float_max_zero (y : float) :
  number y -> (0 <=? Slider.float_max 0 y) = true.
Proof.
  intro Hy. unfold Slider.float_max.
  replace (PrimFloat.is_nan 0) with false by (vm_compute; reflexivity).
  rewrite Hy. cbn [orb].
  destruct (0 <? y) eqn:E; [apply ltb_leb, E|].
  destruct (y <? 0); [reflexivity|].
  replace (PrimFloat.get_sign 0) with false by (vm_compute; reflexivity).
  reflexivity.
Qed.

(** One update: with a duration and a request that are numbers, the
    start handle stays a number that is not negative and the end handle
    stays a number. *)
Lemma step_numbers (d : float) (s : State) (e : event) :
  number d -> number (request e) ->
  (0 <=? startTime s) = true -> number (endTime s) ->
  (0 <=? startTime (fst (step d s e))) = true
  /\ number (endTime (fst (step d s e))).
Proof.
  intros Hd Ht H0 He. destruct e as [t|t]; cbn [step request] in *.
  - unfold handleStartTimeChange.
    destruct (currentTime s <? _); cbn [fst startTime endTime];
      (split; [|exact He]); apply float_max_zero, float_min_number;
      try exact Ht; apply sub_1000_number, He.
  - unfold handleEndTimeChange.
    destruct (_ <? currentTime s); cbn [fst startTime endTime];
      (split; [exact H0|]); apply float_max_number;
      try (apply float_min_number; assumption);
      apply add_1000_number, leb_zero_number, H0.
Qed.

Lemma trace_numbers (d : float) (es : list event) :
  number d -> Forall (fun e => number (request e)) es ->
  forall s, (0 <=? startTime s) = true -> number (endTime s) ->
  Forall (fun s' => (0 <=? startTime s') = true /\ number (endTime s'))
    (trace d s es).
Proof.
  intros Hd Hes. induction Hes as [|e es He _ IH]; intros s H0 Hn;
    cbn [trace].
  - constructor.
  - destruct (step_numbers d s e Hd He H0 Hn) as [H1 H2].
    constructor; [split; assumption|apply IH; assumption].
Qed.

(** The loaded screen starts from such a state. *)
Lemma mounted_numbers (d : float) :
  number d ->
  (0 <=? startTime (mounted d)) = true /\ number (endTime (mounted d)).
Proof.
  intro Hd. unfold mounted.
  destruct (truthy d); cbn [startTime endTime initialState].
  - split; [reflexivity|]. apply float_min_number; [exact Hd|reflexivity].
  - split; reflexivity.
Qed.

(** The start setter stores a request of [NaN]. *)
Lemma start_stores_nan (s : State) :
  PrimFloat.is_nan (startTime (fst (handleStartTimeChange s PrimFloat.nan)))
  = true.
Proof.
  unfold handleStartTimeChange.
  assert (E : Prim2SF (Slider.float_max 0
                (Slider.float_min (endTime s - 1000) PrimFloat.nan))
              = S754_nan)
    by (apply float_max_nan_r, float_min_nan_r; reflexivity).
  destruct (currentTime s <? _); cbn [fst startTime];
    apply nan_is_nan, E.
Qed.

(** C3 fails on the code.  On a screen 390 points wide and a clip of
    10000 ms, dragging the start handle 253 points to the right and then
    the end handle 300 points to the left makes the end setter store its
    own lower clamp, [startTime + 1000] as the engine rounds it.  The
    two numbers stored are 1000 - 2^-40 ms apart, the difference
    [endTime - startTime] the engine computes is below 1000, and the
    screen's own "Apply Trim" refuses the range for being shorter than
    one second.  Before the second drag the gap was there. *)
Theorem C3_gap_lost_to_rounding :
  let s0 := mounted 10000 in
  let s1 := fst (drag 390 true 253 10000 s0) in
  let s2 := fst (drag 390 false (-300) 10000 s1) in
  (endTime s1 - startTime s1 <? 1000) = false
  /\ endTime s2 = startTime s2 + 1000
  /\ (B64.number (endTime s2) - B64.number (startTime s2)
      == 1000 - (1 # 1099511627776))%Q
  /\ (endTime s2 - startTime s2 <? 1000) = true
  /\ snd (handleProceedToPlayer s2)
     = Alerted "Error" "Trimmed duration must be at least 1 second".
Proof.
  cbv zeta. repeat split; vm_compute; reflexivity.
Qed.

(** C4, as the code has it.  In the arithmetic of the engine: from a
    state whose start handle is a number that is not negative and whose
    end handle is a number (the loaded screen starts from one), every
    sequence of updates whose requests are numbers keeps [0 <= startTime]
    after each update, whatever the duration, as long as it is a number;
    the requests may lie below 0 or above the duration and may be
    infinite; a request of [NaN] is stored by the start setter as it is.
    In exact arithmetic: [endTime <= duration] (and [0 <= startTime])
    holds after each update for every video of at least 1000 ms. *)
Theorem C4_domain_invariant :
  (forall (d : float) (s : State) (es : list event),
      number d -> Forall (fun e => number (request e)) es ->
      (0 <=? startTime s) = true -> number (endTime s) ->
      Forall (fun s' => (0 <=? startTime s') = true) (trace d s es))
  /\ (forall d : float,
        number d ->
        (0 <=? startTime (mounted d)) = true
        /\ number (endTime (mounted d)))
  /\ (forall s : State,
        PrimFloat.is_nan
          (startTime (fst (handleStartTimeChange s PrimFloat.nan))) = true)
  /\ (forall (p : Trimmer.Props) (s : Trimmer.State)
        (es : list Trimmer.event),
        Trimmer.reachable p s ->
        (1000 <= Trimmer.videoDuration p)%Q ->
        Forall (fun s' => (0 <= Trimmer.startTime s')%Q
                          /\ (Trimmer.endTime s'
                              <= Trimmer.videoDuration p)%Q)
          (Trimmer.trace p s es)).
Proof.
  split; [|split; [|split]].
  - intros d s es Hd Hes H0 Hn.
    eapply Forall_impl; [|apply trace_numbers; eassumption].
    intros s' [H _]. exact H.
  - exact mounted_numbers.
  - exact start_stores_nan.
  - intros p s es Hr Hd.
    eapply Forall_impl; [|apply trace_reachable; exact Hr].
    intros s' Hs'. destruct (reachable_domain_ok Hd Hs') as (? & ? & _).
    split; assumption.
Qed.

Lemma C4_domain_invariant_witness :
  Forall (fun s' => (0 <=? startTime s') = true)
    (trace 45000 (mounted 45000)
       [StartTimeChange (-250); EndTimeChange PrimFloat.infinity;
        StartTimeChange 99000; EndTimeChange (-1)])
  /\ Forall (fun s' => (0 <= Trimmer.startTime s')%Q
                       /\ (Trimmer.endTime s'
                           <= Trimmer.videoDuration Samples.clip45)%Q)
       (Trimmer.trace Samples.clip45 (Trimmer.mounted Samples.clip45)
          [Trimmer.StartTimeChange (-250); Trimmer.EndTimeChange 99000;
           Trimmer.EndTimeChange (-1)]).
Proof.
  destruct C4_domain_invariant as (H64 & _ & _ & HQ).
  split.
  - apply H64; try reflexivity.
    repeat constructor.
  - apply HQ; [apply Trimmer.reach_mounted|]. vm_compute. discriminate.
Defined.

End TrimmerBinary64.

(** ** The round trip between times and pixels *)

Section RoundTrip.

Import Slider B64.

Local Open Scope Q_scope.

(** Time to pixels and back is the identity where nothing divides by
    zero. *)
Lemma position_roundtrip (w d t : Q) :
  ~ w == 0 -> ~ d == 0 -> ((t / d) * w) / w * d == t.
Proof. intros Hw Hd. field. split; assumption. Qed.

(** The round trip in exact arithmetic. *)
Lemma roundtrip_exact (screenWidth d t : Q) :
  40 < screenWidth -> 0 < d -> 0 <= t -> t <= d ->
  let p := Samples.allAt d t in
  let one_pixel := d / SLIDER_WIDTH screenWidth in
  Qabs (newTime screenWidth p (startPosition screenWidth p) - t)
    <= one_pixel
  /\ Qabs (newTime screenWidth p (endPosition screenWidth p) - t)
     <= one_pixel
  /\ Qabs (newTime screenWidth p (currentPosition screenWidth p) - t)
     <= one_pixel
  /\ newTime screenWidth p (startPosition screenWidth p) == t.
Proof.
  intros Hw Hd H0 Ht. cbv zeta.
  unfold newTime, startPosition, endPosition, currentPosition, SLIDER_WIDTH.
  cbn [n_div n_mul n_sub lit Exact Samples.allAt duration startTime endTime
       currentTime].
  set (w := screenWidth - inject_Z 40).
  assert (Hwpos : 0 < w) by (unfold w; change (inject_Z 40) with 40; lra).
  assert (Hrt : t / d * w / w * d == t)
    by (apply position_roundtrip; lra).
  assert (Hpix : 0 <= d / w).
  { apply Qle_shift_div_l; [exact Hwpos|]. lra. }
  assert (Habs : Qabs (t / d * w / w * d - t) <= d / w).
  { rewrite Hrt. setoid_replace (t - t) with 0 by ring. exact Hpix. }
  repeat split; assumption.
Qed.

(** The round trip of the slider in binary64. *)
Lemma roundtrip_slider_binary64 (screenWidth d t : float) (T D W : Q) :
  value t = Some T -> value d = Some D ->
  value (SLIDER_WIDTH screenWidth) = Some W ->
  0 <= T -> T <= D ->
  2 ^ (-1000) <= D -> D <= 2 ^ 1000 ->
  1 <= W -> W <= 2 ^ 20 ->
  let p := Samples.allAt d t in
  exists B,
    value (newTime screenWidth p (startPosition screenWidth p)) = Some B
    /\ value (newTime screenWidth p (endPosition screenWidth p)) = Some B
    /\ value (newTime screenWidth p (currentPosition screenWidth p))
       = Some B
    /\ Qabs (B - T) <= D / W.
Proof.
  intros Ht Hd Hw HT0 HTD HDlo HDhi HWlo HWhi p.
  destruct (roundtrip_binary64 t d (SLIDER_WIDTH screenWidth) T D W
              Ht Hd Hw HT0 HTD HDlo HDhi HWlo HWhi) as (B & HB & Herr).
  exists B. repeat split; assumption.
Qed.

(** C7.  Converting a time [t] in [[0, d]] to the pixel position
    [t / d * SLIDER_WIDTH] and back by [position / SLIDER_WIDTH * d]
    recovers [t] within [d / SLIDER_WIDTH], the time of one pixel, for
    the start handle, the end handle and the current time indicator.  In
    exact arithmetic this holds for every duration [d > 0] on a track of
    positive width (the round trip is then the identity); in binary64,
    with every operation rounded, it holds for every finite [t] and every
    duration between [2^-1000] and [2^1000] ms on a track of 1 to [2^20]
    points. *)
Theorem C7_pixel_time_roundtrip :
  (forall screenWidth d t : Q,
      40 < screenWidth -> 0 < d -> 0 <= t -> t <= d ->
      let p := Samples.allAt d t in
      let one_pixel := d / SLIDER_WIDTH screenWidth in
      Qabs (newTime screenWidth p (startPosition screenWidth p) - t)
        <= one_pixel
      /\ Qabs (newTime screenWidth p (endPosition screenWidth p) - t)
         <= one_pixel
      /\ Qabs (newTime screenWidth p (currentPosition screenWidth p) - t)
         <= one_pixel
      /\ newTime screenWidth p (startPosition screenWidth p) == t)
  /\ (forall (screenWidth d t : float) (T D W : Q),
         value t = Some T -> value d = Some D ->
         value (SLIDER_WIDTH screenWidth) = Some W ->
         0 <= T -> T <= D ->
         2 ^ (-1000) <= D -> D <= 2 ^ 1000 ->
         1 <= W -> W <= 2 ^ 20 ->
         let p := Samples.allAt d t in
         exists B,
           value (newTime screenWidth p (startPosition screenWidth p))
           = Some B
           /\ value (newTime screenWidth p (endPosition screenWidth p))
              = Some B
           /\ value (newTime screenWidth p
                       (currentPosition screenWidth p)) = Some B
           /\ Qabs (B - T) <= D / W).
Proof.
  split.
  - exact roundtrip_exact.
  - exact roundtrip_slider_binary64.
Qed.

Lemma C7_pixel_time_roundtrip_witness :
  newTime Samples.width390Q (Samples.allAt 45000 12345)
    (startPosition Samples.width390Q (Samples.allAt 45000 12345))
  == 12345
  /\ number 12345%float == 12345
  /\ number 45000%float == 45000
  /\ number (SLIDER_WIDTH Samples.width390) == 350
  /\ exists B,
       value (newTime Samples.width390
                (Samples.allAt 45000%float 12345%float)
                (startPosition Samples.width390
                   (Samples.allAt 45000%float 12345%float))) = Some B
       /\ Qabs (B - number 12345%float)
          <= number 45000%float / number (SLIDER_WIDTH Samples.width390).
Proof.
  destruct C7_pixel_time_roundtrip as [Hexact Hbinary].
  split.
  { refine (proj2 (proj2 (proj2
              (Hexact Samples.width390Q 45000 12345 _ _ _ _))));
      vm_compute; first [reflexivity | discriminate]. }
  split; [vm_compute; reflexivity|].
  split; [vm_compute; reflexivity|].
  split; [vm_compute; reflexivity|].
  assert (Ht : value 12345%float = Some (number 12345%float))
    by (vm_compute; reflexivity).
  assert (Hd : value 45000%float = Some (number 45000%float))
    by (vm_compute; reflexivity).
  assert (Hw : value (SLIDER_WIDTH Samples.width390)
               = Some (number (SLIDER_WIDTH Samples.width390)))
    by (vm_compute; reflexivity).
  pose proof (Hbinary Samples.width390 45000%float 12345%float _ _ _
                Ht Hd Hw) as H.
  do 6 (lapply H; [clear H; intro H|vm_compute; discriminate]).
  destruct H as (B & HB & _ & _ & Herr).
  exists B. split; assumption.
Defined.

End RoundTrip.


(** * Further properties of the code *)

(** ** The utility module *)

Section MoreUtilsFacts.

Local Open Scope Q_scope.

Import VideoUtils.

(** [clamp] keeps a value inside [[min, max]] and leaves a value that is
    inside alone; with the bounds the wrong way round it returns [max]. *)
Theorem clamp_between (value min max : Q) :
  (min <= max ->
   min <= Utils.clamp value min max /\ Utils.clamp value min max <= max)
  /\ (min <= value -> value <= max -> Utils.clamp value min max == value)
  /\ (max < min -> Utils.clamp value min max == max).
Proof.
  unfold Utils.clamp.
  name_max value min m. name_min m max c.
  repeat split; intros; lra.
Qed.

Lemma clamp_between_witness :
  Utils.clamp 7000 0 5000 == 5000 /\ Utils.clamp 3000 0 5000 == 3000
  /\ Utils.clamp 3000 5000 0 == 0.
Proof.
  destruct (clamp_between 7000 0 5000) as ([_ H1] & _ & _);
    [discriminate|].
  destruct (clamp_between 7000 0 5000) as ([H0 _] & _ & _);
    [discriminate|].
  destruct (clamp_between 3000 0 5000) as (_ & H2 & _).
  destruct (clamp_between 3000 5000 0) as (_ & _ & H3).
  split; [|split].
  - apply Qle_antisym; [exact H1|]. vm_compute. discriminate.
  - apply H2; discriminate.
  - apply H3. reflexivity.
Defined.

(** [calculateTrimmedDuration] is never negative; it is the length of the
    range when the range is valid for [validateTimeRange], and 0 when the
    end is not after the start. *)
Theorem calculateTrimmedDuration_valid (startTime endTime : Q) :
  0 <= Utils.calculateTrimmedDuration startTime endTime
  /\ (endTime <= startTime ->
      Utils.calculateTrimmedDuration startTime endTime == 0)
  /\ (Utils.validateTimeRange startTime endTime = true ->
      Utils.calculateTrimmedDuration startTime endTime
      == endTime - startTime
      /\ 0 < Utils.calculateTrimmedDuration startTime endTime).
Proof.
  unfold Utils.calculateTrimmedDuration, Utils.validateTimeRange.
  name_max 0 (endTime - startTime) m.
  split; [lra|]. split; [intros; lra|].
  rewrite !andb_true_iff. intros [[H1 H2] H3]. js_tests. split; lra.
Qed.

Lemma calculateTrimmedDuration_valid_witness :
  Utils.calculateTrimmedDuration 2000 5000 == 3000
  /\ Utils.calculateTrimmedDuration 5000 2000 == 0.
Proof.
  destruct (calculateTrimmedDuration_valid 2000 5000) as (_ & _ & H).
  destruct (calculateTrimmedDuration_valid 5000 2000) as (_ & H' & _).
  split.
  - rewrite (proj1 (H eq_refl)). reflexivity.
  - apply H'. discriminate.
Defined.

(** The suggested trim points are a valid time range exactly for a
    positive duration, and for a duration that is not negative their
    [duration] field is the trimmed duration of their two end points. *)
Theorem suggested_points_valid (videoDuration : Q) :
  let t := Utils.getSuggestedTrimPoints videoDuration in
  (Utils.validateTimeRange (Utils.tp_startTime t) (Utils.tp_endTime t)
   = true <-> 0 < videoDuration)
  /\ (0 <= videoDuration ->
      Utils.tp_duration t
      == Utils.calculateTrimmedDuration (Utils.tp_startTime t)
           (Utils.tp_endTime t))
  /\ Utils.tp_duration t <= 30000.
Proof.
  cbn. unfold Utils.validateTimeRange, Utils.calculateTrimmedDuration.
  rewrite !andb_true_iff, !ltb_lt, leb_le.
  name_min videoDuration 30000 m.
  name_max 0 (m - 0) c.
  split; [|split].
  - split; [intros [[H _] _]; lra|intro H; repeat split; lra].
  - intro H. lra.
  - lra.
Qed.

Lemma suggested_points_valid_witness :
  Utils.validateTimeRange 0
    (Utils.tp_endTime (Utils.getSuggestedTrimPoints 45000)) = true
  /\ Utils.tp_duration (Utils.getSuggestedTrimPoints 45000) == 30000.
Proof.
  destruct (suggested_points_valid 45000) as (H1 & H2 & _).
  split.
  - apply H1. reflexivity.
  - rewrite (H2 ltac:(discriminate)). reflexivity.
Defined.

(** [calculateProgress] always lies between 0 and 100; it is 0 for a
    total of 0, where nothing is divided, and the exact percentage for a
    time inside a positive total. *)
Theorem calculateProgress_percent (currentTime totalTime : Q) :
  (0 <= calculateProgress currentTime totalTime
   /\ calculateProgress currentTime totalTime <= 100)
  /\ (totalTime == 0 -> calculateProgress currentTime totalTime = 0)
  /\ (0 < totalTime -> 0 <= currentTime -> currentTime <= totalTime ->
      calculateProgress currentTime totalTime
      == currentTime / totalTime * 100).
Proof.
  unfold calculateProgress, JS.truthy.
  rewrite negb_involutive, orb_diag.
  destruct (Qeq_bool totalTime 0) eqn:E.
  - split; [split; lra|]. split; [reflexivity|].
    intros H. apply Qeq_bool_iff in E. lra.
  - assert (Hne : ~ totalTime == 0).
    { intro H. apply Qeq_bool_iff in H. congruence. }
    set (r := currentTime / totalTime * 100).
    split; [|split].
    + name_min 100 r m. name_max 0 m c. split; lra.
    + intro H. contradiction.
    + intros Ht H0 H1.
      assert (Hr : 0 <= r /\ r <= 100).
      { unfold r. split.
        - apply Qmult_le_0_compat; [|lra].
          apply Qle_shift_div_l; lra.
        - assert (currentTime / totalTime <= 1)
            by (apply Qle_shift_div_r; lra).
          lra. }
      name_min 100 r m. name_max 0 m c. lra.
Qed.

Lemma calculateProgress_percent_witness :
  calculateProgress 2500 10000 == 25 /\ calculateProgress 2500 0 = 0.
Proof.
  destruct (calculateProgress_percent 2500 10000) as (_ & _ & H).
  destruct (calculateProgress_percent 2500 0) as (_ & H0 & _).
  split.
  - rewrite H; [reflexivity|reflexivity|discriminate|discriminate].
  - apply H0. reflexivity.
Defined.

End MoreUtilsFacts.


(** ** From the selection screen to the trim screen *)

Section SelectionFacts.

Local Open Scope Q_scope.

Import VideoUtils.

(** [isValidVideoDuration] is truthy exactly for a duration above the
    minimum (which, by its first operand, is then not 0 either); a clip
    of exactly the minimum is not valid for it. *)
Theorem isValidVideoDuration_strict (duration minDuration : Q) :
  0 <= minDuration ->
  (truthy_value (isValidVideoDuration duration minDuration) = true
   <-> minDuration < duration)
  /\ truthy_value (isValidVideoDuration minDuration minDuration) = false.
Proof.
  intro Hmin. unfold isValidVideoDuration.
  split.
  - destruct (JS.truthy duration) eqn:E; cbn.
    + apply ltb_lt.
    + rewrite E. split; [discriminate|].
      intro H. rewrite truthy_pos in E; [discriminate|lra].
  - destruct (JS.truthy minDuration) eqn:E; cbn; [|exact E].
    apply ltb_ge. lra.
Qed.

Lemma isValidVideoDuration_strict_witness :
  truthy_value (isValidVideoDuration 1001 1000) = true
  /\ truthy_value (isValidVideoDuration 1000 1000) = false.
Proof.
  destruct (isValidVideoDuration_strict 1001 1000 ltac:(discriminate))
    as [H _].
  destruct (isValidVideoDuration_strict 1000 1000 ltac:(discriminate))
    as [_ H'].
  split; [apply H; reflexivity|exact H'].
Defined.

(** The duration [pickVideo] hands on is never 0: it is the duration of
    the asset, or 10000 when that is missing or 0. *)
Lemma durationOrFallback_truthy (d : option Q) :
  ~ Selection.durationOrFallback d == 0
  /\ (forall q, d = Some q -> ~ q == 0 ->
                Selection.durationOrFallback d = q).
Proof.
  unfold Selection.durationOrFallback, JS.truthy. split.
  - destruct d as [q|]; [|discriminate].
    destruct (Qeq_bool q 0) eqn:E; cbn; [discriminate|].
    intro H. apply Qeq_bool_iff in H. congruence.
  - intros q -> Hq. destruct (Qeq_bool q 0) eqn:E; cbn; [|reflexivity].
    apply Qeq_bool_iff in E. contradiction.
Qed.

(** [pickVideo] navigates exactly when the permissions are granted and
    the picker returns, not cancelled, at least one asset; it then goes
    to the trim screen with the first asset's [uri] and a duration that
    is not 0, and in every case it ends with [isLoading] cleared. *)
Theorem pickVideo_navigates (failure : string) (hasPermissions : bool)
  (result : option Selection.pickerResult) :
  snd (Selection.pickVideo failure hasPermissions result) = false
  /\ ((exists screen params,
          fst (Selection.pickVideo failure hasPermissions result)
          = Selection.Navigated screen params)
      <-> (hasPermissions = true
           /\ exists r video rest,
                result = Some r /\ Selection.canceled r = false
                /\ Selection.assets r = Some (video :: rest)))
  /\ (forall screen params,
         fst (Selection.pickVideo failure hasPermissions result)
         = Selection.Navigated screen params ->
         screen = "VideoTrimmer"%string
         /\ ~ Trimmer.videoDuration params == 0
         /\ exists r video rest,
              result = Some r
              /\ Selection.assets r = Some (video :: rest)
              /\ Trimmer.videoUri params = Selection.uri video
              /\ Trimmer.videoDuration params
                 = Selection.durationOrFallback (Selection.duration video)).
Proof.
  unfold Selection.pickVideo.
  destruct hasPermissions; cbn [negb].
  2: { split; [reflexivity|]. split.
       - split; [intros (? & ? & H); discriminate H
                |intros [H _]; discriminate H].
       - intros ? ? H. discriminate H. }
  destruct result as [r|].
  2: { split; [reflexivity|]. split.
       - split; [intros (? & ? & H); discriminate H
                |intros [_ (? & ? & ? & H & _)]; discriminate H].
       - intros ? ? H. discriminate H. }
  destruct (Selection.canceled r) eqn:Ec; cbn [negb].
  { split; [reflexivity|]. split.
    - split; [intros (? & ? & H); discriminate H|].
      intros [_ (r' & ? & ? & [= <-] & H & _)]. congruence.
    - intros ? ? H. discriminate H. }
  destruct (Selection.assets r) as [[|video rest]|] eqn:Ea.
  - split; [reflexivity|]. split.
    + split; [intros (? & ? & H); discriminate H|].
      intros [_ (r' & ? & ? & [= <-] & _ & H)]. congruence.
    + intros ? ? H. discriminate H.
  - split; [reflexivity|]. split.
    + split.
      * intros _. split; [reflexivity|]. exists r, video, rest. auto.
      * intros _. eexists. eexists. reflexivity.
    + intros screen params [= <- <-]. split; [reflexivity|]. split.
      * apply durationOrFallback_truthy.
      * exists r, video, rest. auto.
  - split; [reflexivity|]. split.
    + split; [intros (? & ? & H); discriminate H|].
      intros [_ (r' & ? & ? & [= <-] & _ & H)]. congruence.
    + intros ? ? H. discriminate H.
Qed.

End SelectionFacts.

(** ** More of the trim screen *)

Section MoreTrimmerFacts.

Local Open Scope Q_scope.

Import Trimmer.

Import TrimmerView.

(** What the freshly loaded trim screen answers to "Apply Trim": a clip
    of at least one second goes to the player with the range from 0 to
    [min(videoDuration, 30000)]; a shorter clip is refused for its
    length, and a duration that is not positive for its empty range. *)
Theorem proceed_after_mount (p : Props) :
  JS.truthy_str (videoUri p) = true ->
  (1000 <= videoDuration p ->
   snd (handleProceedToPlayer p (mounted p))
   = Navigated "VideoPlayer"
       {| pp_videoUri := videoUri p;
          pp_startTime := 0;
          pp_endTime := Qmin (videoDuration p) 30000;
          pp_originalDuration := videoDuration p;
          pp_trimmedDuration := Qmin (videoDuration p) 30000 - 0 |})
  /\ (0 < videoDuration p -> videoDuration p < 1000 ->
      snd (handleProceedToPlayer p (mounted p))
      = Alerted "Error" "Trimmed duration must be at least 1 second")
  /\ (videoDuration p <= 0 ->
      snd (handleProceedToPlayer p (mounted p))
      = Alerted "Error" "Start time must be less than end time").
Proof.
  intro Hu. split; [|split].
  - intro Hd.
    assert (Hpos : 0 < videoDuration p) by lra.
    rewrite (mounted_loaded p Hu (truthy_pos _ Hpos)).
    unfold handleProceedToPlayer. rewrite Hu. cbn.
    pose proof (min_cases (videoDuration p) 30000) as Hm.
    replace (JS.leb (Qmin (videoDuration p) 30000) 0) with false
      by (symmetry; apply leb_gt; lra).
    replace (JS.ltb (Qmin (videoDuration p) 30000 - 0) 1000) with false
      by (symmetry; apply ltb_ge; lra).
    reflexivity.
  - intros H0 H1.
    rewrite (mounted_loaded p Hu (truthy_pos _ H0)).
    unfold handleProceedToPlayer. rewrite Hu. cbn.
    pose proof (min_cases (videoDuration p) 30000) as Hm.
    replace (JS.leb (Qmin (videoDuration p) 30000) 0) with false
      by (symmetry; apply leb_gt; lra).
    replace (JS.ltb (Qmin (videoDuration p) 30000 - 0) 1000) with true
      by (symmetry; apply ltb_lt; lra).
    reflexivity.
  - intro H0.
    assert (Hend : endTime (mounted p) <= 0).
    { destruct (mounted_range p) as [_ [-> | ->]]; [lra|].
      pose proof (min_cases (videoDuration p) 30000) as Hm. lra. }
    assert (Hstart : startTime (mounted p) = 0)
      by apply (mounted_range p).
    unfold handleProceedToPlayer. rewrite Hu, Hstart. cbn [negb].
    replace (JS.leb (endTime (mounted p)) 0) with true
      by (symmetry; apply leb_le; exact Hend).
    reflexivity.
Qed.

Lemma proceed_after_mount_witness :
  snd (handleProceedToPlayer Samples.clip45 (mounted Samples.clip45))
  = Navigated "VideoPlayer"
      {| pp_videoUri := videoUri Samples.clip45;
         pp_startTime := 0;
         pp_endTime := Qmin 45000 30000;
         pp_originalDuration := 45000;
         pp_trimmedDuration := Qmin 45000 30000 - 0 |}
  /\ snd (handleProceedToPlayer Samples.clip05 (mounted Samples.clip05))
     = Alerted "Error" "Trimmed duration must be at least 1 second".
Proof.
  destruct (proceed_after_mount Samples.clip45 eq_refl) as (H1 & _ & _).
  destruct (proceed_after_mount Samples.clip05 eq_refl) as (_ & H2 & _).
  split.
  - apply H1. discriminate.
  - apply H2; reflexivity.
Defined.

(** No handler of the trim screen seeks the preview outside the trim
    range: every [setPositionAsync] an event causes targets a position
    between the start and the end handle as the event leaves them; and
    the trim screen never changes the playback rate. *)
Theorem trimmer_seeks_inside_range (p : Props) (s : State) (e : event) :
  gap_ok s ->
  Forall (seeksInside (fst (step p s e))) (snd (step p s e)).
Proof.
  intros [H0 Hg].
  destruct e as [t|t|st|ok|ok1 ok2| |b]; cbn [step].
  - unfold handleStartTimeChange.
    name_min (endTime s - 1000) t m. name_max 0 m c.
    destruct (JS.ltb (currentTime s) c); cbn [fst snd]; [|constructor].
    destruct (videoRef s); cbn; constructor; [|constructor].
    cbn. split; lra.
  - unfold handleEndTimeChange.
    name_min (videoDuration p) t m. name_max (startTime s + 1000) m c.
    destruct (JS.ltb c (currentTime s)); cbn [fst snd]; [|constructor].
    destruct (videoRef s); cbn; constructor; [|constructor].
    cbn. split; lra.
  - unfold handleVideoStatusUpdate.
    destruct (isLoaded st); cbn [fst snd]; [|constructor].
    destruct (JS.leb (endTime s) (positionMillis st)); cbn [fst snd];
      [|constructor].
    destruct (videoRef s); cbn; constructor; [|constructor].
    cbn. split; lra.
  - unfold handlePlayPause.
    destruct (videoRef s); cbn [fst snd]; [|constructor].
    destruct (isPlaying s); constructor; cbn; auto.
  - unfold handlePreviewTrimmed.
    destruct (videoRef s); cbn [fst snd]; [|constructor].
    destruct ok1, ok2; cbn [fst snd]; repeat constructor; cbn; lra.
  - unfold handleProceedToPlayer.
    destruct (negb _); [constructor|].
    destruct (JS.leb _ _); [constructor|].
    destruct (JS.ltb _ _); [constructor|].
    destruct (videoRef s && isPlaying s); cbn; repeat constructor.
  - constructor.
Qed.

Lemma trimmer_seeks_inside_range_witness :
  snd (step Samples.clip45 (Samples.range 0 30000) (StartTimeChange 29900))
  = [setPositionAsync (Qmax 0 (Qmin (30000 - 1000) 29900))]
  /\ Forall (seeksInside
               (fst (step Samples.clip45 (Samples.range 0 30000)
                       (StartTimeChange 29900))))
       (snd (step Samples.clip45 (Samples.range 0 30000)
               (StartTimeChange 29900))).
Proof.
  split; [reflexivity|].
  apply trimmer_seeks_inside_range. split; vm_compute; discriminate.
Defined.

End MoreTrimmerFacts.


(** ** More of the playback screen *)

Section MorePlayerFacts.

Local Open Scope Q_scope.

Import Player PlayerView.

Lemma or_zero_eq (q : Q) : JS.or_zero q == q.
Proof.
  unfold JS.or_zero, JS.truthy.
  destruct (Qeq_bool q 0) eqn:E; cbn; [|reflexivity].
  apply Qeq_bool_iff in E. symmetry. exact E.
Qed.

(** The percentage behind [trimmedProgress], against the range. *)
Lemma progress_ratio (a b c : Q) :
  a < b ->
  (a <= c -> 0 <= (c - a) / (b - a) * 100)
  /\ (c <= a -> (c - a) / (b - a) * 100 <= 0)
  /\ (c <= b -> (c - a) / (b - a) * 100 <= 100)
  /\ (b <= c -> 100 <= (c - a) / (b - a) * 100)
  /\ (c < b -> (c - a) / (b - a) * 100 < 100).
Proof.
  intro Hab.
  assert (Hlen : 0 < b - a) by lra.
  repeat split; intro H.
  - assert (0 <= (c - a) / (b - a)) by (apply Qle_shift_div_l; lra). lra.
  - assert ((c - a) / (b - a) <= 0) by (apply Qle_shift_div_r; lra). lra.
  - assert ((c - a) / (b - a) <= 1) by (apply Qle_shift_div_r; lra). lra.
  - assert (1 <= (c - a) / (b - a)) by (apply Qle_shift_div_l; lra). lra.
  - assert ((c - a) / (b - a) < 1) by (apply Qlt_shift_div_r; lra). lra.
Qed.

(** The progress fill, by the place of the position. *)
Lemma fill_by_position (p : Props) (s : State) :
  (0 <= progressFillWidth p s /\ progressFillWidth p s <= 100)
  /\ (endTime p <= startTime p -> progressFillWidth p s == 0)
  /\ (startTime p < endTime p ->
      (startTime p <= currentTime s -> currentTime s <= endTime p ->
       progressFillWidth p s
       == (currentTime s - startTime p) / (endTime p - startTime p) * 100)
      /\ (currentTime s <= startTime p -> progressFillWidth p s == 0)
      /\ (endTime p <= currentTime s -> progressFillWidth p s == 100)).
Proof.
  unfold progressFillWidth, trimmedProgress.
  destruct (JS.ltb (startTime p) (endTime p)) eqn:E; js_tests.
  - destruct (progress_ratio (startTime p) (endTime p) (currentTime s) E)
      as (R1 & R2 & R3 & R4 & _).
    set (r := (currentTime s - startTime p) / (endTime p - startTime p)
              * 100) in *.
    name_min 100 r m. name_max 0 m c.
    split; [split; lra|]. split; [intro; lra|].
    intros _. repeat split; intros.
    + specialize (R1 ltac:(assumption)). specialize (R3 ltac:(assumption)).
      lra.
    + specialize (R2 ltac:(assumption)). lra.
    + specialize (R4 ltac:(assumption)). lra.
  - name_min 100 0 m. name_max 0 m c.
    split; [split; lra|]. split; [intro; lra|]. intro. lra.
Qed.

(** The progress fill is always between 0 and 100 percent wide: it is 0
    on an empty or inverted range, where nothing is divided, the exact
    share of the range for a position inside it, and pinned to 0 and 100
    for a position before and after it. *)
Theorem progress_fill_percent (p : Props) (s : State) :
  (0 <= progressFillWidth p s /\ progressFillWidth p s <= 100)
  /\ (endTime p <= startTime p -> progressFillWidth p s == 0)
  /\ (startTime p < endTime p ->
      (startTime p <= currentTime s -> currentTime s <= endTime p ->
       progressFillWidth p s
       == (currentTime s - startTime p) / (endTime p - startTime p) * 100)
      /\ (currentTime s <= startTime p -> progressFillWidth p s == 0)
      /\ (endTime p <= currentTime s -> progressFillWidth p s == 100)).
Proof. exact (fill_by_position p s). Qed.

Lemma progress_fill_percent_witness :
  progressFillWidth Samples.loop25
    (setCurrentTime 2750 (Samples.ready Samples.loop25)) == 25.
Proof.
  destruct (progress_fill_percent Samples.loop25
              (setCurrentTime 2750 (Samples.ready Samples.loop25)))
    as (_ & _ & H).
  destruct (H ltac:(reflexivity)) as (H1 & _ & _).
  rewrite H1; [reflexivity|discriminate|discriminate].
Defined.

(** While looping, every playing notification leaves the recorded
    position inside the half-open range from [startTime] to [endTime]:
    a position at or past the end, or before the start, is recorded as
    [startTime]. *)
Theorem looping_position_inside (p : Props) (s : State) (st : status) :
  startTime p < endTime p ->
  isInitialized s = true -> isLooping s = true ->
  isLoaded st = true -> st_isPlaying st = true ->
  let s' := fst (handleVideoStatusUpdate p s st) in
  startTime p <= currentTime s' /\ currentTime s' < endTime p.
Proof.
  intros Hr Hi Hl Hld Hpl.
  unfold handleVideoStatusUpdate, steadyState.
  rewrite Hld, Hi, Hl, Hpl. cbn [negb andb orb].
  pose proof (or_zero_eq (positionMillis st)) as Ez.
  set (pos := JS.or_zero (positionMillis st)) in *.
  destruct (JS.leb (endTime p) pos) eqn:E1,
           (JS.ltb pos (startTime p)) eqn:E2; js_tests; cbn; lra.
Qed.

Lemma looping_position_inside_witness :
  currentTime (fst (handleVideoStatusUpdate Samples.loop25
                      (Samples.ready Samples.loop25)
                      (Samples.playingAt 7000))) < 5000.
Proof.
  exact (proj2
    (looping_position_inside Samples.loop25 (Samples.ready Samples.loop25)
       (Samples.playingAt 7000) eq_refl eq_refl eq_refl eq_refl eq_refl)).
Defined.

(** With the loop off, [handleVideoStatusUpdate] on a playing
    notification at or past the end of a proper range issues one
    [pauseAsync] and nothing else, and records that the player is not
    playing; on a notification that reports a paused player it issues
    nothing.  This is the handler alone: what React's re-run of the
    focus effect's cleanup sends when [isPlaying] falls is no part of
    it. *)
Theorem loop_off_stops_at_end (p : Props) (s : State) (st : status) :
  startTime p <= endTime p ->
  isInitialized s = true -> isLooping s = false ->
  isLoaded st = true ->
  (st_isPlaying st = true -> endTime p <= positionMillis st ->
   snd (handleVideoStatusUpdate p s st) = via_ref (videoRef s) pauseAsync
   /\ isPlaying (fst (handleVideoStatusUpdate p s st)) = false
   /\ currentTime (fst (handleVideoStatusUpdate p s st))
      == positionMillis st)
  /\ (st_isPlaying st = false ->
      snd (handleVideoStatusUpdate p s st) = []).
Proof.
  intros Hr Hi Hl Hld.
  unfold handleVideoStatusUpdate, steadyState.
  rewrite Hld, Hi, Hl. cbn [negb andb orb].
  pose proof (or_zero_eq (positionMillis st)) as Ez.
  set (pos := JS.or_zero (positionMillis st)) in *.
  split.
  - intros Hpl He. rewrite Hpl, !andb_true_r.
    replace (JS.leb (endTime p) pos) with true
      by (symmetry; apply leb_le; lra).
    replace (JS.ltb pos (startTime p)) with false
      by (symmetry; apply ltb_ge; lra).
    cbn. rewrite app_nil_r. repeat split. exact Ez.
  - intros Hpl. rewrite Hpl, !andb_false_r. reflexivity.
Qed.

Lemma loop_off_stops_at_end_witness :
  snd (handleVideoStatusUpdate Samples.loop25
         (handleToggleLoop (Samples.ready Samples.loop25))
         (Samples.playingAt 5000)) = [pauseAsync].
Proof.
  assert (Hr : startTime Samples.loop25 <= endTime Samples.loop25)
    by discriminate.
  destruct (loop_off_stops_at_end Samples.loop25
              (handleToggleLoop (Samples.ready Samples.loop25))
              (Samples.playingAt 5000) Hr eq_refl eq_refl eq_refl)
    as [H _].
  assert (He : endTime Samples.loop25
               <= positionMillis (Samples.playingAt 5000))
    by discriminate.
  exact (proj1 (H eq_refl He)).
Defined.

(** No event makes the playback screen start the player outside the
    range: whenever an event sends [playAsync], the position the screen
    has recorded after it lies in the half-open range from [startTime]
    to [endTime]. *)
Theorem play_only_inside_range (p : Props) (s : State) (e : event) :
  startTime p < endTime p ->
  In playAsync (map snd (snd (step p s e))) ->
  startTime p <= currentTime (fst (step p s e))
  /\ currentTime (fst (step p s e)) < endTime p.
Proof.
  intros Hr. rewrite step_handler.
  assert (Hno : forall cs : list command,
             (forall c, In c cs -> c <> playAsync) ->
             forall o, ~ In playAsync (map snd (tagged o cs))).
  { intros cs Hcs o Hin. unfold tagged in Hin. rewrite map_map in Hin.
    cbn in Hin. rewrite map_id in Hin. exact (Hcs _ Hin eq_refl). }
  destruct e as [st|ok|ok1 ok2| | |ok1 ok2| |b]; cbn [fst snd].
  - intro H. exfalso. revert H. apply Hno.
    unfold handleVideoStatusUpdate, steadyState, via_ref.
    repeat match goal with
    | |- context [if ?b then _ else _] => destruct b; cbn
    end; intros c Hc; repeat (destruct Hc as [<- | Hc]; [discriminate|]);
      contradiction.
  - intro H. exfalso. revert H. apply Hno.
    unfold resumeInitialization.
    destruct (initTask s); cbn;
    repeat match goal with
    | |- context [if ?b then _ else _] => destruct b; cbn
    end; intros c Hc; repeat (destruct Hc as [<- | Hc]; [discriminate|]);
      contradiction.
  - unfold handlePlayPause.
    destruct (negb (videoRef s) || negb (videoLoaded s)
              || negb (isInitialized s)); [cbn; tauto|].
    destruct (isPlaying s).
    { cbn. intros [H | H]; [discriminate H|contradiction]. }
    destruct (JS.ltb (currentTime s) (startTime p)) eqn:E1; cbn [orb].
    { destruct ok1, ok2; cbn; intros [H | H]; try discriminate H;
        try (destruct H as [H | H]; [|contradiction]); try contradiction;
        lra. }
    destruct (JS.leb (endTime p) (currentTime s)) eqn:E2.
    { destruct ok1, ok2; cbn; intros [H | H]; try discriminate H;
        try (destruct H as [H | H]; [|contradiction]); try contradiction;
        lra. }
    js_tests. destruct ok1; cbn; intros _; lra.
  - intro H. exfalso. revert H. apply Hno.
    unfold handleSpeedChange.
    destruct (_ || _); cbn; intros c Hc;
      repeat (destruct Hc as [<- | Hc]; [discriminate|]); contradiction.
  - cbn. tauto.
  - unfold handleRestart.
    destruct (_ || _); [cbn; tauto|].
    destruct ok1, ok2; cbn; intros [H | H]; try discriminate H;
      try (destruct H as [H | H]; [|contradiction]); try contradiction;
      lra.
  - intro H. exfalso. revert H. apply Hno.
    unfold pauseOnLeave, via_ref.
    destruct (_ && _); cbn; intros c Hc;
      repeat (destruct Hc as [<- | Hc]; [discriminate|]); contradiction.
  - cbn. tauto.
Qed.

Lemma play_only_inside_range_witness :
  snd (step Samples.loop25
         (setCurrentTime 9000 (Samples.ready Samples.loop25))
         (PlayPause true true))
  = [(ByUser, setPositionAsync 2000); (ByUser, playAsync)]
  /\ currentTime
       (fst (step Samples.loop25
               (setCurrentTime 9000 (Samples.ready Samples.loop25))
               (PlayPause true true))) < 5000.
Proof.
  split; [reflexivity|].
  apply (play_only_inside_range Samples.loop25
           (setCurrentTime 9000 (Samples.ready Samples.loop25))
           (PlayPause true true)); [reflexivity|].
  cbn. auto.
Defined.

End MorePlayerFacts.


(** ** The speed ladder, the initialisation and the way back *)

Section PlayerControlFacts.

Local Open Scope Q_scope.

Import Player PlayerView.

(** Decide the tests of [indexOf] on a speed [x]. *)
Ltac speed_tests x :=
  repeat match goal with
  | |- context [Qeq_bool ?y x] =>
      let E := fresh "E" in
      destruct (Qeq_bool y x) eqn:E;
      [apply Qeq_bool_iff in E | apply Qeq_bool_neq in E]
  end.

Ltac speed_clash :=
  solve [ exfalso; lra
        | exfalso;
          match goal with
          | E : ~ _ == _ |- _ => apply E; lra
          end ].

(** The speed after the next press, by the speed before it. *)
Lemma next_speed (x : Q) :
  let next :=
    nth (Z.to_nat (Z.rem (indexOf playbackSpeeds x + 1)
                     (Z.of_nat (List.length playbackSpeeds))))
      playbackSpeeds 0 in
  In next playbackSpeeds
  /\ (x == 0.5 -> next = 1.0) /\ (x == 1.0 -> next = 1.25)
  /\ (x == 1.25 -> next = 1.5) /\ (x == 1.5 -> next = 2.0)
  /\ (x == 2.0 -> next = 0.5).
Proof.
  cbv zeta. unfold playbackSpeeds. cbn [indexOf List.length].
  speed_tests x; cbn; repeat split; intros;
    first [reflexivity | speed_clash | tauto].
Qed.

Lemma handleSpeedChange_ready (s : State) :
  videoRef s = true -> videoLoaded s = true -> isInitialized s = true ->
  handleSpeedChange s
  = let next :=
      nth (Z.to_nat (Z.rem (indexOf playbackSpeeds (playbackSpeed s) + 1)
                       (Z.of_nat (List.length playbackSpeeds))))
        playbackSpeeds 0 in
    (setPlaybackSpeed next s, [setRateAsync next true]).
Proof.
  intros Hr Hl Hi. unfold handleSpeedChange. rewrite Hr, Hl, Hi.
  reflexivity.
Qed.

(** The speed button walks the ladder 0.5, 1.0, 1.25, 1.5, 2.0 in a
    cycle: on a ready screen a press always ends on a speed of the
    ladder and sends exactly that speed to the player; from 1.0 the
    presses give 1.25, 1.5, 2.0, 0.5 and 1.0 again, and from any speed
    of the ladder five presses come back to it. *)
Theorem speed_button_cycles (s : State) :
  videoRef s = true -> videoLoaded s = true -> isInitialized s = true ->
  In (playbackSpeed (fst (handleSpeedChange s))) playbackSpeeds
  /\ snd (handleSpeedChange s)
     = [setRateAsync (playbackSpeed (fst (handleSpeedChange s))) true]
  /\ (playbackSpeed s == 1.0 ->
      map (fun n => playbackSpeed (pressSpeed n s)) [1; 2; 3; 4; 5]%nat
      = [1.25; 1.5; 2.0; 0.5; 1.0])
  /\ ((exists v, In v playbackSpeeds /\ playbackSpeed s == v) ->
      playbackSpeed (pressSpeed 5 s) == playbackSpeed s).
Proof.
  intros Hr Hl Hi.
  pose proof (handleSpeedChange_ready s Hr Hl Hi) as E. cbv zeta in E.
  destruct (next_speed (playbackSpeed s)) as (Hin & H05 & H10 & H125
                                              & H15 & H20).
  cbv zeta in *.
  assert (Hpress : forall v,
             nth (Z.to_nat
                    (Z.rem (indexOf playbackSpeeds (playbackSpeed s) + 1)
                       (Z.of_nat (List.length playbackSpeeds))))
               playbackSpeeds 0 = v ->
             forall n, pressSpeed (S n) s
                       = pressSpeed n (setPlaybackSpeed v s)).
  { intros v Hv n. cbn [pressSpeed]. rewrite E, Hv. reflexivity. }
  destruct s as [pl ct sp lp vl ini vs vr att task].
  cbn in Hr, Hl, Hi. subst vr vl ini. cbn [playbackSpeed] in *.
  split; [rewrite E; exact Hin|].
  split; [rewrite E; reflexivity|].
  split.
  - intro H. specialize (H10 H).
    cbn [map]. rewrite !(Hpress _ H10). vm_compute. reflexivity.
  - intros (v & Hv & Hs).
    unfold playbackSpeeds in Hv. cbn in Hv.
    destruct Hv as [<- | [<- | [<- | [<- | [<- | []]]]]].
    + rewrite (Hpress _ (H05 Hs)).
      match goal with
      | |- ?x == _ =>
          let v := eval vm_compute in x in
          change x with v
      end.
      symmetry. exact Hs.
    + rewrite (Hpress _ (H10 Hs)).
      match goal with
      | |- ?x == _ =>
          let v := eval vm_compute in x in
          change x with v
      end.
      symmetry. exact Hs.
    + rewrite (Hpress _ (H125 Hs)).
      match goal with
      | |- ?x == _ =>
          let v := eval vm_compute in x in
          change x with v
      end.
      symmetry. exact Hs.
    + rewrite (Hpress _ (H15 Hs)).
      match goal with
      | |- ?x == _ =>
          let v := eval vm_compute in x in
          change x with v
      end.
      symmetry. exact Hs.
    + rewrite (Hpress _ (H20 Hs)).
      match goal with
      | |- ?x == _ =>
          let v := eval vm_compute in x in
          change x with v
      end.
      symmetry. exact Hs.
Qed.

Lemma speed_button_cycles_witness :
  map (fun n => playbackSpeed (pressSpeed n (Samples.ready Samples.loop25)))
    [1; 2; 3; 4; 5]%nat
  = [1.25; 1.5; 2.0; 0.5; 1.0].
Proof.
  destruct (speed_button_cycles (Samples.ready Samples.loop25)
              eq_refl eq_refl eq_refl) as (_ & _ & H & _).
  apply H. reflexivity.
Defined.

(** A log without commands of the steady-state rule and of the user is
    the log of the initialisation. *)
Lemma only_initialisation (l : log) :
  issuedBy BySteady l = [] -> issuedBy ByUser l = [] ->
  map snd l = issuedBy ByInit l.
Proof.
  unfold issuedBy.
  induction l as [|[o c] l IH]; cbn; [reflexivity|].
  destruct o; cbn; intros H1 H2; try discriminate.
  f_equal. apply IH; assumption.
Qed.

(** Until the initialisation has completed, whatever is pressed and
    whatever the player reports, the only commands the playback screen
    has sent are those of its initialisation: nothing, the pause, or the
    pause and the seek to [startTime]. *)
Theorem silent_until_initialized (p : Props) (es : list event) :
  isInitialized (fst (run p (mounted p) es)) = false ->
  let sent := map snd (snd (run p (mounted p) es)) in
  sent = [] \/ sent = [pauseAsync]
  \/ sent = [pauseAsync; setPositionAsync (startTime p)].
Proof.
  intro Hn.
  pose proof (run_load_inv p es (mounted p) [] (mounted_load_inv p)) as H.
  cbn [app] in H. destruct H as (_ & Hi & Hs & Hq).
  destruct (Hq Hn) as (_ & H1 & H2).
  cbv zeta. rewrite (only_initialisation _ H1 H2).
  rewrite Hn in Hi.
  destruct (initTask (fst (run p (mounted p) es))); cbn in Hi, Hs;
    try discriminate Hi; try tauto.
  all: destruct Hs as [-> _]; tauto.
Qed.

Lemma silent_until_initialized_witness :
  map snd
    (snd (run Samples.loop25 (mounted Samples.loop25)
            [RefChange true; PlayPause true true;
             StatusUpdate (Samples.playingAt 0); Restart true true;
             Settled true; SpeedChange; Leave;
             StatusUpdate (Samples.playingAt 9000)]))
  = [pauseAsync].
Proof.
  destruct (silent_until_initialized Samples.loop25
              [RefChange true; PlayPause true true;
               StatusUpdate (Samples.playingAt 0); Restart true true;
               Settled true; SpeedChange; Leave;
               StatusUpdate (Samples.playingAt 9000)] eq_refl)
    as [H | [H | H]]; [discriminate H|exact H|discriminate H].
Defined.

(** In a failed initialisation nothing moves any more. *)
Lemma failed_step (p : Props) (s : State) (l : log) (e : event) :
  load_inv p s l -> initTask s = Failed ->
  snd (step p s e) = [] /\ initTask (fst (step p s e)) = Failed.
Proof.
  intros (Ha & Hi & _ & Hq) Ht. rewrite Ht in Ha, Hi. cbn in Ha, Hi.
  destruct (Hq Hi) as (Hp & _ & _).
  destruct (user_handlers_gated p s Hi Hp) as (G1 & G2 & G3 & G4).
  rewrite step_handler.
  destruct e as [st|ok|ok1 ok2| | |ok1 ok2| |b]; cbn [fst snd];
    rewrite ?G1, ?G2, ?G3, ?G4; cbn [fst snd tagged map]; auto.
  - unfold handleVideoStatusUpdate. rewrite Hi, Ha.
    destruct (isLoaded st); cbn; auto.
  - unfold resumeInitialization. rewrite Ht. cbn. auto.
Qed.

(** A failed initialisation is never tried again: once a promise of
    the initialisation has been rejected, no later notification or
    press makes the screen initialised, and the screen sends nothing to
    the player any more. *)
Theorem failed_initialization_is_final (p : Props) (es1 es2 : list event) :
  initTask (fst (run p (mounted p) es1)) = Failed ->
  isInitialized (fst (run p (fst (run p (mounted p) es1)) es2)) = false
  /\ snd (run p (fst (run p (mounted p) es1)) es2) = [].
Proof.
  pose proof (run_load_inv p es1 (mounted p) [] (mounted_load_inv p)) as H.
  cbn [app] in H.
  generalize dependent (snd (run p (mounted p) es1)).
  generalize (fst (run p (mounted p) es1)).
  intros s l Hinv Ht. revert s l Hinv Ht.
  induction es2 as [|e es IH]; intros s l Hinv Ht; cbn [run].
  - split; [|reflexivity]. cbn.
    destruct Hinv as (_ & Hi & _). rewrite Ht in Hi. exact Hi.
  - destruct (failed_step p s l e Hinv Ht) as [Hc Ht'].
    pose proof (step_load_inv p s l e Hinv) as Hinv'.
    destruct (step p s e) as [s1 l1]. cbn [fst snd] in *. subst l1.
    specialize (IH s1 (l ++ []) Hinv' Ht').
    destruct (run p s1 es) as [s2 l2]. cbn [fst snd] in *.
    destruct IH as [IH1 IH2]. split; [exact IH1|]. rewrite IH2. reflexivity.
Qed.

Lemma failed_initialization_is_final_witness :
  snd (run Samples.loop25
         (fst (run Samples.loop25 (mounted Samples.loop25)
                 [RefChange true; StatusUpdate (Samples.playingAt 0);
                  Settled true; Settled false]))
         [StatusUpdate (Samples.playingAt 0); Settled true;
          PlayPause true true; Restart true true]) = [].
Proof.
  apply (failed_initialization_is_final Samples.loop25
           [RefChange true; StatusUpdate (Samples.playingAt 0);
            Settled true; Settled false]).
  reflexivity.
Defined.

(** "Apply Trim" followed by "Edit Trim" hands the trim screen back the
    video and the duration it had: the parameters of the way back are
    those the trim screen started from, whatever range was played. *)
Theorem edit_trim_returns_the_clip (p : Trimmer.Props) (s : Trimmer.State)
  (screen : string) (q : Trimmer.PlayerParams) (ps : State) :
  snd (Trimmer.handleProceedToPlayer p s) = Trimmer.Navigated screen q ->
  snd (handleEditTrim (ofParams q) ps) = Some p
  /\ snd (fst (handleEditTrim (ofParams q) ps))
     = (if videoRef ps && isPlaying ps then [pauseAsync] else []).
Proof.
  unfold Trimmer.handleProceedToPlayer.
  destruct (JS.truthy_str (Trimmer.videoUri p)) eqn:Hu; cbn [negb];
    [|discriminate].
  destruct (JS.leb _ _); [discriminate|].
  destruct (JS.ltb _ _); [discriminate|].
  intro H.
  assert (Hq : Trimmer.pp_videoUri q = Trimmer.videoUri p
               /\ Trimmer.pp_originalDuration q = Trimmer.videoDuration p).
  { destruct (Trimmer.videoRef s && Trimmer.isPlaying s); cbn in H;
      injection H as <- <-; split; reflexivity. }
  destruct Hq as [Hq1 Hq2].
  unfold handleEditTrim, pauseOnLeave, ofParams. cbn [videoUri originalDuration].
  rewrite Hq1, Hq2, Hu. destruct p. cbn.
  destruct (videoRef ps && isPlaying ps); split; reflexivity.
Qed.

Lemma edit_trim_returns_the_clip_witness :
  exists q,
    snd (Trimmer.handleProceedToPlayer Samples.clip45
           (Samples.range 2000 9000)) = Trimmer.Navigated "VideoPlayer" q
    /\ snd (handleEditTrim (ofParams q) (Samples.ready (ofParams q)))
       = Some Samples.clip45.
Proof.
  eexists. split; [reflexivity|].
  refine (proj1 (edit_trim_returns_the_clip Samples.clip45
                   (Samples.range 2000 9000) "VideoPlayer" _ _ eq_refl)).
Defined.

End PlayerControlFacts.


(** ** Time strings *)

Section TimeStringFacts.

Local Open Scope Q_scope.

Import Ascii.

Import VideoUtils.

(** The digits of a number that is not negative. *)
Lemma toString_nonneg (n : Z) :
  (0 <= n)%Z ->
  exists d, toString n = DecimalString.NilEmpty.string_of_uint d
            /\ Z.of_uint d = n.
Proof.
  intro Hn. destruct n as [|p|p].
  - exists Decimal.zero. split; reflexivity.
  - exists (Pos.to_uint p). split; [reflexivity|].
    exact (DecimalZ.of_to (Zpos p)).
  - exfalso. apply Hn. reflexivity.
Qed.

Lemma toString_nonempty (n : Z) :
  (0 <= n)%Z -> (1 <= String.length (toString n))%nat.
Proof.
  intro Hn. destruct n as [|p|p].
  - cbn. lia.
  - unfold toString. cbn [Z.to_int DecimalString.NilEmpty.string_of_int].
    pose proof (DecimalPos.Unsigned.to_uint_nonnil p) as Hp.
    destruct (Pos.to_uint p); [congruence| | | | | | | | | |]; cbn; lia.
  - exfalso. apply Hn. reflexivity.
Qed.

Lemma digits_string_of_uint (d : Decimal.uint) :
  digits (DecimalString.NilEmpty.string_of_uint d) = true.
Proof. induction d; cbn [DecimalString.NilEmpty.string_of_uint digits];
  try rewrite IHd; reflexivity. Qed.

Lemma digits_toString (n : Z) : (0 <= n)%Z -> digits (toString n) = true.
Proof.
  intro Hn. destruct (toString_nonneg n Hn) as (d & -> & _).
  apply digits_string_of_uint.
Qed.

Lemma digits_pad (k : nat) (s : string) :
  digits s = true -> digits (pad k "0"%char s) = true.
Proof. intro H. induction k; cbn; [exact H|exact IHk]. Qed.

Lemma digit_not_colon (a : ascii) :
  isDigit a = true -> Ascii.eqb a ":"%char = false.
Proof.
  intro H. destruct (Ascii.eqb_spec a ":"%char) as [->|_];
    [discriminate H|reflexivity].
Qed.

(** Splitting at the colon a string that starts with digits. *)
Lemma split_digits (s : string) :
  digits s = true -> split ":"%char s = [s].
Proof.
  induction s as [|a s IH]; cbn [digits split]; [reflexivity|].
  intro H. apply andb_prop in H. destruct H as [Ha Hs].
  rewrite (digit_not_colon a Ha), (IH Hs). reflexivity.
Qed.

Lemma split_digits_colon (a b : string) :
  digits a = true ->
  split ":"%char (a ++ String ":"%char b) = a :: split ":"%char b.
Proof.
  induction a as [|x a IH]; cbn [digits split String.append].
  - intros _. rewrite Ascii.eqb_refl. reflexivity.
  - intro H. apply andb_prop in H. destruct H as [Hx Ha].
    rewrite (digit_not_colon x Hx), (IH Ha). reflexivity.
Qed.

(** A field of two places holds every number below sixty in exactly two
    characters. *)
Lemma two_places (n : Z) :
  (0 <= n < 60)%Z ->
  String.length (padStart 2 "0"%char (toString n)) = 2%nat.
Proof.
  intro Hn.
  assert (Hall : forallb
            (fun k => Nat.eqb
               (String.length
                  (padStart 2 "0"%char (toString (Z.of_nat k)))) 2)
            (seq 0 60) = true) by (vm_compute; reflexivity).
  rewrite forallb_forall in Hall.
  specialize (Hall (Z.to_nat n)).
  rewrite Z2Nat.id in Hall by lia.
  apply Nat.eqb_eq, Hall, in_seq. lia.
Qed.

(** Whole seconds, minutes and the seconds left over. *)
Lemma seconds_nonneg (t : Q) : 0 <= t -> (0 <= Qround.Qfloor (t / 1000))%Z.
Proof.
  intro Ht.
  change 0%Z with (Qround.Qfloor 0).
  apply Qround.Qfloor_resp_le.
  apply Qle_shift_div_l; [reflexivity|]. lra.
Qed.

Lemma minutes_seconds (n : Z) :
  (0 <= n)%Z ->
  (0 <= floorDiv n 60)%Z /\ (0 <= Z.rem n 60 < 60)%Z
  /\ inject_Z (floorDiv n 60) * 60 + inject_Z (Z.rem n 60) == inject_Z n.
Proof.
  intro Hn. unfold floorDiv.
  rewrite Z.rem_mod_nonneg by lia.
  pose proof (Z.mod_pos_bound n 60 ltac:(lia)) as Hm.
  pose proof (Z.div_pos n 60 Hn ltac:(lia)) as Hq.
  split; [exact Hq|]. split; [exact Hm|].
  rewrite (Z.div_mod n 60) at 3 by lia.
  rewrite inject_Z_plus, inject_Z_mult. change (inject_Z 60) with 60.
  ring.
Qed.

(** The shape of [formatTime] for a time from 0 to below 2^53 ms: the
    minutes in decimal digits, a colon, and the seconds in exactly two
    decimal digits; splitting the string at the colon gives these two
    fields back. *)
Theorem formatTime_shape (t : Q) :
  0 <= t -> t < 9007199254740992 ->
  exists mm ss,
    formatTime t = (mm ++ ":" ++ ss)%string
    /\ digits mm = true /\ (1 <= String.length mm)%nat
    /\ digits ss = true /\ String.length ss = 2%nat
    /\ split ":"%char (formatTime t) = [mm; ss].
Proof.
  intros Ht _. unfold formatTime. cbv zeta.
  pose proof (seconds_nonneg t Ht) as Hn.
  set (n := Qround.Qfloor (t / 1000)) in *.
  destruct (minutes_seconds n Hn) as (Hm & Hs & _).
  exists (toString (floorDiv n 60)),
    (padStart 2 "0"%char (toString (Z.rem n 60))).
  assert (Dm : digits (toString (floorDiv n 60)) = true)
    by (apply digits_toString, Hm).
  assert (Ds : digits (padStart 2 "0"%char (toString (Z.rem n 60))) = true)
    by (apply digits_pad, digits_toString; lia).
  split; [reflexivity|]. split; [exact Dm|]. split.
  - apply toString_nonempty, Hm.
  - split; [exact Ds|]. split; [apply two_places; lia|].
    change (":" ++ ?x)%string with (String ":"%char x).
    rewrite (split_digits_colon _ _ Dm), (split_digits _ Ds). reflexivity.
Qed.

Lemma formatTime_shape_witness :
  formatTime 65500 = "1:05"%string
  /\ exists mm ss,
       formatTime 65500 = (mm ++ ":" ++ ss)%string
       /\ String.length ss = 2%nat.
Proof.
  split; [vm_compute; reflexivity|].
  destruct (formatTime_shape 65500) as (mm & ss & E & _ & _ & _ & L & _);
    [discriminate|reflexivity|].
  exists mm, ss. split; [exact E|exact L].
Defined.

(** [decimalNumber] reads decimal digits behind zeros. *)
Lemma decimalNumber_reads : readsDecimal decimalNumber.
Proof.
  intros k n [Hn _]. unfold decimalNumber.
  destruct (toString_nonneg n Hn) as (d & -> & <-).
  induction k as [|k IH]; cbn [pad].
  - rewrite DecimalString.NilEmpty.usu. reflexivity.
  - cbn [DecimalString.NilEmpty.uint_of_string].
    destruct (DecimalString.NilEmpty.uint_of_string
                (pad k "0"%char (DecimalString.NilEmpty.string_of_uint d)))
      as [u|]; [|discriminate IH].
    cbn [DecimalString.uint_of_char].
    injection IH as IH. f_equal.
    rewrite <- IH. reflexivity.
Qed.

Lemma reads_plain (Number : string -> option Q) (n : Z) :
  readsDecimal Number -> (0 <= n < 9007199254740992)%Z ->
  Number (toString n) = Some (inject_Z n).
Proof. intros HN Hn. exact (HN 0%nat n Hn). Qed.

Lemma reads_padded (Number : string -> option Q) (n : Z) :
  readsDecimal Number -> (0 <= n < 9007199254740992)%Z ->
  Number (padStart 2 "0"%char (toString n)) = Some (inject_Z n).
Proof. intros HN Hn. exact (HN _ n Hn). Qed.

(** The whole seconds of a time bound it within a second. *)
Lemma whole_seconds (t : Q) :
  inject_Z (Qround.Qfloor (t / 1000)) * 1000 <= t
  /\ t < inject_Z (Qround.Qfloor (t / 1000)) * 1000 + 1000.
Proof.
  pose proof (Qround.Qfloor_le (t / 1000)) as H1.
  pose proof (Qround.Qlt_floor (t / 1000)) as H2.
  rewrite inject_Z_plus in H2. change (inject_Z 1) with 1 in H2.
  set (n := inject_Z (Qround.Qfloor (t / 1000))) in *. clearbody n.
  assert (E : t == (t / 1000) * 1000) by (field; discriminate).
  set (x := t / 1000) in *. clearbody x.
  split; lra.
Qed.

Lemma seconds_below (t : Q) :
  t < 9007199254740992000 ->
  (Qround.Qfloor (t / 1000) < 9007199254740992)%Z.
Proof.
  intro Ht. destruct (whole_seconds t) as [Hlo _].
  rewrite Zlt_Qlt.
  change (inject_Z 9007199254740992) with 9007199254740992.
  set (n := inject_Z (Qround.Qfloor (t / 1000))) in *. clearbody n.
  lra.
Qed.

(** [timeStringToMillis] reads back what [formatTime] wrote, down to the
    second: for a time that is not negative, and a [Number] that reads
    decimal digits, the string of the time is read as the time's whole
    seconds in milliseconds, which is the time itself less than a second
    rounded down.  (The time is below 2^53 ms.) *)
Theorem time_string_roundtrip (Number : string -> option Q) (t : Q) :
  readsDecimal Number -> 0 <= t -> t < 9007199254740992 ->
  exists r,
    timeStringToMillis Number (formatTime t) = Some r
    /\ r == inject_Z (Qround.Qfloor (t / 1000)) * 1000
    /\ r <= t /\ t < r + 1000.
Proof.
  intros HN Ht Hb.
  pose proof (seconds_nonneg t Ht) as Hn.
  assert (Hlt : (Qround.Qfloor (t / 1000) < 9007199254740992)%Z)
    by (apply seconds_below; lra).
  pose proof (whole_seconds t) as Hw.
  unfold formatTime. cbv zeta.
  set (n := Qround.Qfloor (t / 1000)) in *.
  destruct (minutes_seconds n Hn) as (Hm & Hs & Hsum).
  assert (Hmb : (floorDiv n 60 < 9007199254740992)%Z).
  { unfold floorDiv. apply Z.div_lt_upper_bound; lia. }
  eexists. split.
  - unfold timeStringToMillis.
    change (":" ++ ?x)%string with (String ":"%char x).
    rewrite (split_digits_colon _ _ (digits_toString _ Hm)).
    rewrite split_digits
      by (apply digits_pad, digits_toString; lia).
    cbn [map].
    rewrite (reads_plain Number _ HN) by lia.
    rewrite (reads_padded Number (Z.rem n 60) HN) by lia.
    reflexivity.
  - assert (E : (inject_Z (floorDiv n 60) * 60 + inject_Z (Z.rem n 60))
                * 1000 == inject_Z n * 1000)
      by (rewrite Hsum; reflexivity).
    split; [exact E|]. rewrite E. exact Hw.
Qed.

Lemma time_string_roundtrip_witness :
  formatTime 65500 = "1:05"%string
  /\ exists r,
       timeStringToMillis decimalNumber (formatTime 65500) = Some r
       /\ r == 65000.
Proof.
  split; [vm_compute; reflexivity|].
  destruct (time_string_roundtrip decimalNumber 65500 decimalNumber_reads)
    as (r & E & Hr & _); [discriminate|reflexivity|].
  exists r. split; [exact E|]. rewrite Hr. vm_compute. reflexivity.
Defined.

(** Below one hour [formatLongTime] writes what [formatTime] writes. *)
Theorem formatLongTime_below_hour (t : Q) :
  0 <= t -> t < 3600000 -> formatLongTime t = formatTime t.
Proof.
  intros Ht Hh.
  pose proof (seconds_nonneg t Ht) as Hn.
  destruct (whole_seconds t) as [Hlo _].
  unfold formatLongTime, formatTime. cbv zeta.
  set (n := Qround.Qfloor (t / 1000)) in *.
  assert (Hlt : (n < 3600)%Z).
  { rewrite Zlt_Qlt. change (inject_Z 3600) with 3600. lra. }
  unfold floorDiv.
  rewrite (Z.div_small n 3600) by lia.
  rewrite (Z.rem_small n 3600) by lia.
  reflexivity.
Qed.

Lemma formatLongTime_below_hour_witness :
  formatLongTime 3599999 = "59:59"%string
  /\ formatLongTime 3599999 = formatTime 3599999.
Proof.
  split; [vm_compute; reflexivity|].
  apply formatLongTime_below_hour; [discriminate|reflexivity].
Defined.

(** From one hour on [timeStringToMillis] does not read back what
    [formatLongTime] wrote: it takes the hours for minutes and the
    minutes for seconds, so it returns the whole minutes of the time as
    if they were seconds, a sixtieth of the time. *)
Theorem long_time_read_as_minutes (Number : string -> option Q) (t : Q) :
  readsDecimal Number -> 3600000 <= t -> t < 9007199254740992 ->
  exists r,
    timeStringToMillis Number (formatLongTime t) = Some r
    /\ r * 60 <= t /\ t < r * 60 + 60000.
Proof.
  intros HN Ht Hb.
  assert (Ht0 : 0 <= t) by lra.
  pose proof (seconds_nonneg t Ht0) as Hn.
  assert (Hlt : (Qround.Qfloor (t / 1000) < 9007199254740992)%Z)
    by (apply seconds_below; lra).
  destruct (whole_seconds t) as [Hlo Hhi].
  unfold formatLongTime. cbv zeta.
  set (n := Qround.Qfloor (t / 1000)) in *.
  assert (Hge : (3600 <= n)%Z).
  { change 3600%Z with (Qround.Qfloor 3600).
    apply Qround.Qfloor_resp_le.
    apply Qle_shift_div_l; [reflexivity|]. lra. }
  unfold floorDiv.
  rewrite !Z.rem_mod_nonneg by lia.
  set (h := (n / 3600)%Z). set (m := ((n mod 3600) / 60)%Z).
  set (s := (n mod 60)%Z).
  assert (Hz : (0 < h < 9007199254740992 /\ 0 <= m < 60 /\ 0 <= s < 60
                /\ n = h * 3600 + m * 60 + s)%Z).
  { unfold h, m, s. Z.to_euclidean_division_equations. lia. }
  destruct Hz as (Hh & Hm & Hs & Hsum).
  replace (0 <? h)%Z with true by (symmetry; apply Z.ltb_lt; lia).
  eexists. split.
  - unfold timeStringToMillis.
    repeat match goal with
    | |- context [(":" ++ ?x)%string] =>
        change (":" ++ x)%string with (String ":"%char x)
    end.
    rewrite split_digits_colon by (apply digits_toString; lia).
    rewrite split_digits_colon
      by (apply digits_pad, digits_toString; lia).
    rewrite split_digits
      by (apply digits_pad, digits_toString; lia).
    cbn [map].
    rewrite (reads_plain Number h HN) by lia.
    rewrite (reads_padded Number m HN) by lia.
    reflexivity.
  - assert (E : inject_Z n
                == inject_Z h * 3600 + inject_Z m * 60 + inject_Z s).
    { rewrite Hsum, !inject_Z_plus, !inject_Z_mult. reflexivity. }
    assert (Hs0 : 0 <= inject_Z s)
      by (change 0 with (inject_Z 0); rewrite <- Zle_Qle; lia).
    assert (Hs1 : inject_Z s <= 59)
      by (change 59 with (inject_Z 59); rewrite <- Zle_Qle; lia).
    set (N := inject_Z n) in *. set (H := inject_Z h) in *.
    set (M := inject_Z m) in *. set (S' := inject_Z s) in *.
    clearbody N H M S'.
    split; lra.
Qed.

Lemma long_time_read_as_minutes_witness :
  formatLongTime 3725000 = "1:02:05"%string
  /\ exists r,
       timeStringToMillis decimalNumber (formatLongTime 3725000) = Some r
       /\ r * 60 <= 3725000.
Proof.
  split; [vm_compute; reflexivity|].
  destruct (long_time_read_as_minutes decimalNumber 3725000
              decimalNumber_reads)
    as (r & E & Hr & _); [discriminate|reflexivity|].
  exists r. split; [exact E|exact Hr].
Defined.

End TimeStringFacts.
